(** * A shallow embedding of [delinea.py]: the [SSCreds] secret-retrieval client

    The Python module keeps two module-level variables (the token cache),
    talks to a remote server through an [httpx] session and memoises two
    accessors on the instance.  The embedding threads three things
    explicitly through every method:

    - the instance ([SSCreds], the fields of the pydantic model together
      with the [cached_property] slots of its [__dict__]);
    - the process ([world]: the two module globals, everything written to
      standard output, and the list of HTTP requests sent so far);
    - the outcome (a returned value or a raised exception).

    The remote server, the JSON parser and the environment variables are
    not code of the module: they are the fields of a [setting]. *)

From Stdlib Require Import String Ascii List ZArith Bool Lia.
Import ListNotations.
Open Scope string_scope.
Open Scope Z_scope.
Set Warnings "-register-all".

(** ** Python values and exceptions *)

(** The values [json()] can produce, which are also the only dynamically
    typed values the module stores.  Numbers are the integral ones. *)
Inductive pyval : Type :=
| PyNone
| PyBool (b : bool)
| PyInt (z : Z)
| PyStr (s : string)
| PyList (l : list pyval)
| PyDict (d : list (string * pyval)).

Record response : Type := mkResponse {
  status_code : Z;
  text : string
}.

Inductive exn : Type :=
| HTTPStatusError (r : response)
| TransportError
| RuntimeError (msg : string)
| JSONDecodeError
| KeyError (key : string)
| IndexError
| TypeError
| AttributeError (name : string).

Inductive result (A : Type) : Type :=
| Ok (a : A)
| Raise (e : exn).
Arguments Ok {A} a.
Arguments Raise {A} e.

(** ** Strings: [in], [strip] *)

(** [needle in hay] on Python strings. *)
Fixpoint contains (needle hay : string) : bool :=
  String.prefix needle hay ||
  match hay with
  | EmptyString => false
  | String _ rest => contains needle rest
  end.

Definition quote : ascii := Ascii.ascii_of_nat 34.

Fixpoint lstrip (c : ascii) (s : string) : string :=
  match s with
  | String a rest => if Ascii.eqb a c then lstrip c rest else s
  | EmptyString => EmptyString
  end.

Fixpoint rstrip (c : ascii) (s : string) : string :=
  match s with
  | EmptyString => EmptyString
  | String a rest =>
      match rstrip c rest with
      | EmptyString => if Ascii.eqb a c then EmptyString else String a EmptyString
      | rest' => String a rest'
      end
  end.

(** [s.strip(c)] for a one-character [c]. *)
Definition strip (c : ascii) (s : string) : string := rstrip c (lstrip c s).

(** ** Subscripting, as [_getTOTP()[0]["code"]] and [resp["name"]] use it *)

Fixpoint dict_get (d : list (string * pyval)) (k : string) : option pyval :=
  match d with
  | [] => None
  | (k', v) :: rest => if String.eqb k' k then Some v else dict_get rest k
  end.

(** [v[k]] for a string key [k]: only a dict accepts it. *)
Definition getitem_str (v : pyval) (k : string) : result pyval :=
  match v with
  | PyDict d =>
      match dict_get d k with
      | Some x => Ok x
      | None => Raise (KeyError k)
      end
  | _ => Raise TypeError
  end.

(** [v[0]]: the first element of a list, the first character of a string
    (itself a string), [d[0]] on a dict whose keys are strings is a
    [KeyError]. *)
Definition getitem_0 (v : pyval) : result pyval :=
  match v with
  | PyList (x :: _) => Ok x
  | PyList [] => Raise IndexError
  | PyStr (String a _) => Ok (PyStr (String a EmptyString))
  | PyStr EmptyString => Raise IndexError
  | PyDict _ => Raise (KeyError "0")
  | _ => Raise TypeError
  end.

(** ** HTTP requests *)

Inductive http_method : Type := GET | POST.

Record request : Type := mkRequest {
  req_method : http_method;
  req_url : string;
  req_headers : list (string * string);
  req_params : list (string * pyval);
  req_data : list (string * pyval)
}.

(** What the network gives back for one request. *)
Inductive outcome : Type :=
| Reply (r : response)
| NoReply.

(** [Response.is_success] of httpx: a 2xx status. *)
Definition is_success (r : response) : bool :=
  (200 <=? status_code r) && (status_code r <=? 299).

(** ** The process and the instance *)

Record world : Type := mkWorld {
  current_access_token : option string;
  current_refresh_token : option string;
  stdout : list string;
  sent : list request
}.

Inductive token_kind : Type := cached | server | refreshed.

Inductive Client : Type := httpx_Client.

Record SSCreds : Type := mkSSCreds {
  secret_id : Z;
  slug_ident : string;
  slug_secret : string;
  cache_access_token : string;
  cache_refresh_token : string;
  cache_refresh_ctr : string;
  _s : option Client;
  init_uuid : string;
  token_type : token_kind;
  _sec_template : pyval;
  _sec_name : pyval;
  _nolog : bool;
  (* the two [cached_property] entries of the instance's [__dict__] *)
  ident_memo : option pyval;
  secret_memo : option string
}.

Definition set_slug_ident (v : string) (o : SSCreds) : SSCreds :=
  mkSSCreds (secret_id o) v (slug_secret o) (cache_access_token o)
    (cache_refresh_token o) (cache_refresh_ctr o) (_s o) (init_uuid o)
    (token_type o) (_sec_template o) (_sec_name o) (_nolog o)
    (ident_memo o) (secret_memo o).

Definition set_s (v : option Client) (o : SSCreds) : SSCreds :=
  mkSSCreds (secret_id o) (slug_ident o) (slug_secret o) (cache_access_token o)
    (cache_refresh_token o) (cache_refresh_ctr o) v (init_uuid o)
    (token_type o) (_sec_template o) (_sec_name o) (_nolog o)
    (ident_memo o) (secret_memo o).

Definition set_token_type (v : token_kind) (o : SSCreds) : SSCreds :=
  mkSSCreds (secret_id o) (slug_ident o) (slug_secret o) (cache_access_token o)
    (cache_refresh_token o) (cache_refresh_ctr o) (_s o) (init_uuid o)
    v (_sec_template o) (_sec_name o) (_nolog o)
    (ident_memo o) (secret_memo o).

Definition set_sec_template (v : pyval) (o : SSCreds) : SSCreds :=
  mkSSCreds (secret_id o) (slug_ident o) (slug_secret o) (cache_access_token o)
    (cache_refresh_token o) (cache_refresh_ctr o) (_s o) (init_uuid o)
    (token_type o) v (_sec_name o) (_nolog o)
    (ident_memo o) (secret_memo o).

Definition set_sec_name (v : pyval) (o : SSCreds) : SSCreds :=
  mkSSCreds (secret_id o) (slug_ident o) (slug_secret o) (cache_access_token o)
    (cache_refresh_token o) (cache_refresh_ctr o) (_s o) (init_uuid o)
    (token_type o) (_sec_template o) v (_nolog o)
    (ident_memo o) (secret_memo o).

Definition set_ident_memo (v : option pyval) (o : SSCreds) : SSCreds :=
  mkSSCreds (secret_id o) (slug_ident o) (slug_secret o) (cache_access_token o)
    (cache_refresh_token o) (cache_refresh_ctr o) (_s o) (init_uuid o)
    (token_type o) (_sec_template o) (_sec_name o) (_nolog o)
    v (secret_memo o).

Definition set_secret_memo (v : option string) (o : SSCreds) : SSCreds :=
  mkSSCreds (secret_id o) (slug_ident o) (slug_secret o) (cache_access_token o)
    (cache_refresh_token o) (cache_refresh_ctr o) (_s o) (init_uuid o)
    (token_type o) (_sec_template o) (_sec_name o) (_nolog o)
    (ident_memo o) v.

(** ** Methods as state transformers

    A method runs on an instance in a process and leaves both changed,
    also when it raises: what was assigned before the [raise] stays. *)
Definition M (A : Type) : Type := SSCreds -> world -> result A * SSCreds * world.

Definition ret {A} (a : A) : M A := fun self w => (Ok a, self, w).
Definition raise {A} (e : exn) : M A := fun self w => (Raise e, self, w).
Definition bind {A B} (m : M A) (k : A -> M B) : M B :=
  fun self w =>
    match m self w with
    | (Ok a, self', w') => k a self' w'
    | (Raise e, self', w') => (Raise e, self', w')
    end.
Definition lift {A} (r : result A) : M A := fun self w => (r, self, w).
Definition get_self : M SSCreds := fun self w => (Ok self, self, w).
Definition modify_self (f : SSCreds -> SSCreds) : M unit :=
  fun self w => (Ok tt, f self, w).

Notation "x <- m ;; k" := (bind m (fun x => k))
  (at level 61, m at next level, right associativity).
Notation "m ;;; k" := (bind m (fun _ => k))
  (at level 61, right associativity).

(** [print(line)] *)
Definition print (line : string) : M unit :=
  fun self w =>
    (Ok tt, self,
     mkWorld (current_access_token w) (current_refresh_token w)
       (stdout w ++ [line]) (sent w)).

(** [resp.raise_for_status()] *)
Definition raise_for_status (r : response) : M unit :=
  if is_success r then ret tt else raise (HTTPStatusError r).

(** [a + b] where [a] comes from [os.getenv] and may be [None]. *)
Definition env_concat (a : option string) (b : string) : M string :=
  match a with
  | Some s => ret (s ++ b)%string
  | None => raise TypeError
  end.

Definition of_env (a : option string) : pyval :=
  match a with
  | Some s => PyStr s
  | None => PyNone
  end.

Definition SEC_NAME_AS_IDENT : list Z := [6041; 6047].

(** [v in SEC_NAME_AS_IDENT]: [v == 6041 or v == 6047] on Python values. *)
Definition in_SEC_NAME_AS_IDENT (v : pyval) : bool :=
  match v with
  | PyInt z => existsb (Z.eqb z) SEC_NAME_AS_IDENT
  | PyBool b => existsb (Z.eqb (if b then 1 else 0)) SEC_NAME_AS_IDENT
  | _ => false
  end.

Definition sentinel : string := "$self._sec_name".
Definition access_denied_marker : string := "API_AccessDenied".
Definition expired_marker : string := "Authentication failed or expired token".
Definition access_denied_message : string :=
  "Unable to retrieve secret, access denied.".

(** What the module finds around it: the three environment variables,
    read once when the module is imported, the remote side (its answer to
    a request, given the requests this process sent before it) and
    [Response.json()] on a body. *)
Record setting : Type := mkSetting {
  SSAPP_USERNAME : option string;
  SSAPP_PASSWORD : option string;
  SSAPP_BASEURL : option string;
  remote : list request -> request -> outcome;
  parse_json : string -> option pyval
}.

Section Client.

Variable cfg : setting.

(** [self._s.get(...)] and [self._s.post(...)] once their arguments are
    evaluated: the request goes out, the answer comes back or the
    transport fails. *)
Definition send (r : request) : M response :=
  fun self w =>
    let w' := mkWorld (current_access_token w) (current_refresh_token w)
                (stdout w) (sent w ++ [r]) in
    match remote cfg (sent w) r with
    | Reply resp => (Ok resp, self, w')
    | NoReply => (Raise TransportError, self, w')
    end.

(** [self._s.get] and [self._s.post] look the method up on the session:
    on [None] that is an [AttributeError]. *)
Definition session (attr : string) : M Client :=
  self <- get_self ;;
  match _s self with
  | Some c => ret c
  | None => raise (AttributeError attr)
  end.

Definition json (r : response) : M pyval :=
  match parse_json cfg (text r) with
  | Some v => ret v
  | None => raise JSONDecodeError
  end.

(** [_cachedAccessToken] and [_cachedRefreshToken] read the module
    globals. *)
Definition _cachedAccessToken : M (option string) :=
  fun self w => (Ok (current_access_token w), self, w).

Definition _cachedRefreshToken : M (option string) :=
  fun self w => (Ok (current_refresh_token w), self, w).

(** [_getServerAccessToken].  The method has no [global] statement, so
    its two last assignments bind names local to the call; the module
    globals of [world] are not written. *)
Definition _getServerAccessToken : M pyval :=
  let cred := (SSAPP_USERNAME cfg, SSAPP_PASSWORD cfg) in
  session "post" ;;;
  url <- env_concat (SSAPP_BASEURL cfg) "oauth2/token" ;;
  resp <- send (mkRequest POST url [] []
                  [("grant_type", PyStr "password");
                   ("username", of_env (fst cred));
                   ("password", of_env (snd cred))]) ;;
  raise_for_status resp ;;;
  resp <- json resp ;;
  oauth_access_token <- lift (getitem_str resp "access_token") ;;
  oauth_token_type <- lift (getitem_str resp "token_type") ;;
  oauth_expires_in <- lift (getitem_str resp "expires_in") ;;
  oauth_refresh_token <- lift (getitem_str resp "refresh_token") ;;
  let current_access_token_local := oauth_access_token in
  let current_refresh_token_local := oauth_refresh_token in
  ret current_access_token_local.

(** [_accessToken] *)
Definition _accessToken : M pyval :=
  tok <- _cachedAccessToken ;;
  match tok with
  | Some t =>
      modify_self (set_token_type cached) ;;;
      ret (PyStr t)
  | None => _getServerAccessToken
  end.

(** [_getHeaders]: ["Bearer " + self._accessToken] needs a string. *)
Definition _getHeaders : M (list (string * string)) :=
  tok <- _accessToken ;;
  match tok with
  | PyStr t => ret [("Authorization", ("Bearer " ++ t)%string)]
  | _ => raise TypeError
  end.

(** The call [self._s.get(headers=self._getHeaders, url=SSAPP_BASEURL + url,
    params=params)] of [sendRequest]: the arguments are evaluated left
    to right, then the request is sent. *)
Definition session_get (url : string) (params : list (string * pyval))
  : M response :=
  session "get" ;;;
  headers <- _getHeaders ;;
  full <- env_concat (SSAPP_BASEURL cfg) url ;;
  send (mkRequest GET full headers params []).

(** The inner function [sendRequest] of [get].  The class defines no
    [_initSession], so a missing session is an [AttributeError]. *)
Definition sendRequest (url : string) (params : list (string * pyval))
  : M response :=
  self <- get_self ;;
  match _s self with
  | None => raise (AttributeError "_initSession")
  | Some _ => ret tt
  end ;;;
  resp <- session_get url params ;;
  raise_for_status resp ;;;
  if contains access_denied_marker (text resp)
  then raise (RuntimeError access_denied_message)
  else ret resp.

(** [get].  As in [_getServerAccessToken], the two assignments of
    [None] bind locals of [get]. *)
Definition get (url : string) (params : list (string * pyval)) : M response :=
  resp <- sendRequest url params ;;
  if contains expired_marker (text resp)
  then
    print "Deleting token and repeating request" ;;;
    let current_access_token_local : option string := None in
    let current_refresh_token_local : option string := None in
    resp <- sendRequest url params ;;
    raise_for_status resp ;;;
    ret resp
  else ret resp.

(** [post] *)
Definition post (url : string) (data params : list (string * pyval))
  : M response :=
  session "post" ;;;
  headers <- _getHeaders ;;
  full <- env_concat (SSAPP_BASEURL cfg) url ;;
  resp <- send (mkRequest POST full headers params data) ;;
  raise_for_status resp ;;;
  ret resp.

(** [_getSlug]: the URL is the literal template, handed to [get] as it
    is; the identifier and the slug travel in [params]. *)
Definition _getSlug (slug : string) : M string :=
  self <- get_self ;;
  resp <- get "api/v1/secrets/{id}/fields/{slug}"
            [("id", PyInt (secret_id self)); ("slug", PyStr slug)] ;;
  raise_for_status resp ;;;
  ret (strip quote (text resp)).

(** [_getTOTP] returns the stripped body text, as [_getSlug] does. *)
Definition _getTOTP : M string :=
  self <- get_self ;;
  resp <- get "api/v1/one-time-password-code/{id}"
            [("id", PyInt (secret_id self))] ;;
  raise_for_status resp ;;;
  ret (strip quote (text resp)).

(** [_getSecretSummary] *)
Definition _getSecretSummary : M pyval :=
  self <- get_self ;;
  resp <- get "api/v1/secrets/{id}/summary" [("id", PyInt (secret_id self))] ;;
  json resp.

(** [functools.cached_property]: the value found in the instance's
    [__dict__] is returned without running the body; otherwise the body
    runs and, when it returns, its value is stored. *)
Definition cached_property {A} (slot : SSCreds -> option A)
    (store : option A -> SSCreds -> SSCreds) (body : M A) : M A :=
  self <- get_self ;;
  match slot self with
  | Some v => ret v
  | None =>
      v <- body ;;
      modify_self (store (Some v)) ;;;
      ret v
  end.

(** The body of [ident]; both members of the tuple given to [any] are
    evaluated. *)
Definition ident_body : M pyval :=
  self <- get_self ;;
  if String.eqb (slug_ident self) sentinel
     || in_SEC_NAME_AS_IDENT (_sec_template self)
  then
    modify_self (set_slug_ident sentinel) ;;;
    self <- get_self ;;
    ret (_sec_name self)
  else
    v <- _getSlug (slug_ident self) ;;
    ret (PyStr v).

Definition ident : M pyval :=
  cached_property ident_memo set_ident_memo ident_body.

Definition secret_body : M string :=
  self <- get_self ;;
  _getSlug (slug_secret self).

Definition secret : M string :=
  cached_property secret_memo set_secret_memo secret_body.

(** [otp], a plain [property]: [self._getTOTP()[0]["code"]]. *)
Definition otp : M pyval :=
  v <- _getTOTP ;;
  first <- lift (getitem_0 (PyStr v)) ;;
  lift (getitem_str first "code").

(** [model_post_init] *)
Definition model_post_init : M unit :=
  self <- get_self ;;
  print ("Initializing Credential Request: " ++ init_uuid self) ;;;
  modify_self (set_s (Some httpx_Client)) ;;;
  sec_summ <- _getSecretSummary ;;
  template <- lift (getitem_str sec_summ "secretTemplateId") ;;
  modify_self (set_sec_template template) ;;;
  name <- lift (getitem_str sec_summ "name") ;;
  modify_self (set_sec_name name).

(** The fields of a new instance before [model_post_init] runs; [uuid]
    stands for [str(uuid4())]. *)
Definition fields (id : Z) (ident_slug secret_slug uuid : string) : SSCreds :=
  mkSSCreds id ident_slug secret_slug
    "delinea:access_token" "delinea:refresh_token" "delinea:refresh_ctr"
    None uuid cached (PyInt 0) PyNone false None None.

(** [SSCreds(secret_id=id, slug_ident=..., slug_secret=...)]: the caller
    gets the instance only when [model_post_init] returns. *)
Definition new_SSCreds (id : Z) (ident_slug secret_slug uuid : string)
    (w : world) : result SSCreds * world :=
  match model_post_init (fields id ident_slug secret_slug uuid) w with
  | (Ok _, self, w') => (Ok self, w')
  | (Raise e, _, w') => (Raise e, w')
  end.

(** *** Using an instance *)

Inductive accessor : Type := Ident | Secret | Otp.

(** The instance and the process after one access, whatever it gave. *)
Definition access (a : accessor) (self : SSCreds) (w : world)
  : SSCreds * world :=
  match a with
  | Ident => let '(_, self', w') := ident self w in (self', w')
  | Secret => let '(_, self', w') := secret self w in (self', w')
  | Otp => let '(_, self', w') := otp self w in (self', w')
  end.

(** The instance after a run of accesses; between two of them the
    process may have changed in any way (other instances share it). *)
Fixpoint after (l : list (accessor * world)) (self : SSCreds) : SSCreds :=
  match l with
  | [] => self
  | (a, w) :: rest => after rest (fst (access a self w))
  end.

(** The two memoised accessors, read as Python values. *)
Inductive memoised : Type := the_ident | the_secret.

Definition read (a : memoised) : M pyval :=
  match a with
  | the_ident => ident
  | the_secret => v <- secret ;; ret (PyStr v)
  end.

(** The process as [get] finds it when it sends again. *)
Definition told_to_repeat (w : world) : world :=
  mkWorld (current_access_token w) (current_refresh_token w)
    (stdout w ++ ["Deleting token and repeating request"]) (sent w).

(** [answered url params self w r self' w']: during [get url params]
    started on [self] in [w], the response [r] came back for one of the
    GETs, leaving [self'] and [w']: either for the first one, or for the
    one sent again after a first response that passed the checks and
    carried the expired-token marker. *)
Inductive answered (url : string) (params : list (string * pyval))
    (self : SSCreds) (w : world) : response -> SSCreds -> world -> Prop :=
| answered_first r self1 w1 :
    session_get url params self w = (Ok r, self1, w1) ->
    answered url params self w r self1 w1
| answered_again r1 self1 w1 r2 self2 w2 :
    session_get url params self w = (Ok r1, self1, w1) ->
    is_success r1 = true ->
    contains access_denied_marker (text r1) = false ->
    contains expired_marker (text r1) = true ->
    session_get url params self1 (told_to_repeat w1) = (Ok r2, self2, w2) ->
    answered url params self w r2 self2 w2.

End Client.

(** ** What is observed of a run *)

Definition is_GET (r : request) : bool :=
  match req_method r with GET => true | POST => false end.

Definition is_POST (r : request) : bool :=
  match req_method r with POST => true | GET => false end.

(** The GET and the POST requests among those sent. *)
Definition gets (w : world) : list request := filter is_GET (sent w).
Definition posts (w : world) : list request := filter is_POST (sent w).

(** What every request method may do to the instance and the process:
    assign [token_type], print, send requests.  The module globals stay. *)
Record evolves (self : SSCreds) (w : world) (self' : SSCreds) (w' : world)
  : Prop := mkEvolves {
  ev_self : self' = set_token_type (token_type self') self;
  ev_access : current_access_token w' = current_access_token w;
  ev_refresh : current_refresh_token w' = current_refresh_token w;
  ev_sent : exists l, sent w' = (sent w ++ l)%list
}.

(** A method all of whose runs stay within a relation between the state
    before and the state after. *)
Definition respects (R : SSCreds -> world -> SSCreds -> world -> Prop)
    {A} (m : M A) : Prop :=
  forall self w r self' w', m self w = (r, self', w') -> R self w self' w'.

(** Only POSTs are sent. *)
Definition no_get (self : SSCreds) (w : world) (self' : SSCreds) (w' : world)
  : Prop := gets w' = gets w.

(** What stays of an instance whose [token_type] alone was assigned. *)
Record same_but_token_type (s s' : SSCreds) : Prop := mkSame {
  same_secret_id : secret_id s' = secret_id s;
  same_slug_ident : slug_ident s' = slug_ident s;
  same_slug_secret : slug_secret s' = slug_secret s;
  same_sec_template : _sec_template s' = _sec_template s;
  same_sec_name : _sec_name s' = _sec_name s;
  same_ident_memo : ident_memo s' = ident_memo s;
  same_secret_memo : secret_memo s' = secret_memo s
}.

(** Nothing assigned: the instance and the module globals are as before. *)
Definition unchanged (self : SSCreds) (w : world) (self' : SSCreds) (w' : world)
  : Prop :=
  self' = self /\
  current_access_token w' = current_access_token w /\
  current_refresh_token w' = current_refresh_token w.

(** A provenance that reads ["cached"] still does afterwards. *)
Definition keeps_cached (self : SSCreds) (w : world) (self' : SSCreds)
    (w' : world) : Prop :=
  token_type self = cached -> token_type self' = cached.

(** What [sendRequest] makes of a response. *)
Definition checked (r : response) : result response :=
  if is_success r
  then if contains access_denied_marker (text r)
       then Raise (RuntimeError access_denied_message)
       else Ok r
  else Raise (HTTPStatusError r).

(** The GET that [session_get url params] builds. *)
Definition get_request_of (cfg : setting) (url : string)
    (params : list (string * pyval)) (r : request) : Prop :=
  exists base headers,
    SSAPP_BASEURL cfg = Some base /\
    r = mkRequest GET (base ++ url) headers params [].

(** The memoised value an instance holds for an accessor, if any. *)
Definition memo_of (a : memoised) (self : SSCreds) : option pyval :=
  match a with
  | the_ident => ident_memo self
  | the_secret => option_map PyStr (secret_memo self)
  end.

(** The test [ident] makes before it asks the server. *)
Definition name_is_ident (self : SSCreds) : bool :=
  String.eqb (slug_ident self) sentinel
  || in_SEC_NAME_AS_IDENT (_sec_template self).

(** A memoised identity agrees with the fields it was computed from. *)
Definition settled (self : SSCreds) : Prop :=
  forall v, ident_memo self = Some v -> name_is_ident self = true ->
            v = _sec_name self /\ slug_ident self = sentinel.

(** The process after the first line of [model_post_init]. *)
Definition announced (uuid : string) (w : world) : world :=
  mkWorld (current_access_token w) (current_refresh_token w)
    (stdout w ++ [("Initializing Credential Request: " ++ uuid)%string])
    (sent w).

(** ** Two sentences of the specification, as they are written

    "If a GET response body contains the expired-token marker text, the
    client clears both cached tokens and re-issues the request exactly
    once." *)
Definition stated_expired_marker_retries : Prop :=
  forall cfg url params self w r1 self1 w1,
    session_get cfg url params self w = (Ok r1, self1, w1) ->
    contains expired_marker (text r1) = true ->
    forall res self' w',
      get cfg url params self w = (res, self', w') ->
      current_access_token w' = None /\ current_refresh_token w' = None /\
      length (gets w') = (length (gets w) + 2)%nat.

(** "First attempt checks both status and marker-text; retry checks
    status only": a retry response with a success status is returned,
    whatever its body. *)
Definition stated_retry_checks_status_only : Prop :=
  forall cfg url params self w r1 self1 w1 r2 self2 w2,
    session_get cfg url params self w = (Ok r1, self1, w1) ->
    is_success r1 = true ->
    contains access_denied_marker (text r1) = false ->
    contains expired_marker (text r1) = true ->
    session_get cfg url params self1 (told_to_repeat w1) = (Ok r2, self2, w2) ->
    is_success r2 = true ->
    get cfg url params self w = (Ok r2, self2, w2).

(** ** The traffic of the module, and [main.py] *)

(** The headers [_getHeaders] builds around a token. *)
Definition bearer (t : string) : list (string * string) :=
  [("Authorization", ("Bearer " ++ t)%string)].

(** The request of the password grant. *)
Definition grant_request (cfg : setting) (r : request) : Prop :=
  exists base,
    SSAPP_BASEURL cfg = Some base /\
    r = mkRequest POST (base ++ "oauth2/token") [] []
          [("grant_type", PyStr "password");
           ("username", of_env (SSAPP_USERNAME cfg));
           ("password", of_env (SSAPP_PASSWORD cfg))].

(** A GET of [url] with [params] that carries a bearer token. *)
Definition authenticated_get (cfg : setting) (url : string)
    (params : list (string * pyval)) (r : request) : Prop :=
  exists base t,
    SSAPP_BASEURL cfg = Some base /\
    r = mkRequest GET (base ++ url) (bearer t) params [].


(** The GET for the value of a field of a secret, and the GET for the
    summary of a secret. *)
Definition field_request (cfg : setting) (id : Z) (slug : string)
    (r : request) : Prop :=
  get_request_of cfg "api/v1/secrets/{id}/fields/{slug}"
    [("id", PyInt id); ("slug", PyStr slug)] r.

Definition summary_request (cfg : setting) (id : Z) (r : request) : Prop :=
  get_request_of cfg "api/v1/secrets/{id}/summary" [("id", PyInt id)] r.


(** What one run of [sendRequest] sends when it has to fetch a token:
    nothing, the password grant alone, or the password grant and then the
    GET. *)
Definition grant_then_get (cfg : setting) (url : string)
    (params : list (string * pyval)) (l : list request) : Prop :=
  l = [] \/
  (exists p, grant_request cfg p /\ l = [p]) \/
  (exists p g, grant_request cfg p /\ authenticated_get cfg url params g /\
               l = [p; g]).

(** Nothing sent, nothing printed. *)
Definition same_world (self : SSCreds) (w : world) (self' : SSCreds)
    (w' : world) : Prop := w' = w.

Definition starts_with (c : ascii) (s : string) : bool :=
  match s with
  | String a _ => Ascii.eqb a c
  | EmptyString => false
  end.

Fixpoint ends_with (c : ascii) (s : string) : bool :=
  match s with
  | EmptyString => false
  | String a rest =>
      match rest with
      | EmptyString => Ascii.eqb a c
      | String _ _ => ends_with c rest
      end
  end.

(** How a run of [main.py] ends when it does not end normally:
    [int(...)] rejects the line typed, or an exception of the client is
    not caught. *)
Inductive uncaught : Type :=
| ValueError
| Uncaught (e : exn).

Definition prompt : string := "Enter secret_id to retrieve: ".

(** Something written to standard output. *)
Definition write (line : string) (w : world) : world :=
  mkWorld (current_access_token w) (current_refresh_token w)
    (stdout w ++ [line]) (sent w).

(** The f-string of [main.py]; [str_of] is Python's [str] on the values
    formatted. *)
Definition report (str_of : pyval -> string) (id : Z) (i : pyval) (s : string)
  : string :=
  "id: " ++ str_of (PyInt id) ++ " ident: " ++ str_of i
         ++ " secret: " ++ str_of (PyStr s).

(** The body of [main.py] under its [__main__] guard.  [typed] is the line
    [input] reads, [int_of] is Python's [int] on a string, [uuid] the
    value [uuid4] gives the instance.  The f-string reads [secret_id],
    then [ident], then [secret]. *)
Definition main (cfg : setting) (str_of : pyval -> string)
    (int_of : string -> option Z) (typed uuid : string) (w : world)
  : option uncaught * world :=
  let w0 := write prompt w in
  match int_of typed with
  | None => (Some ValueError, w0)
  | Some sec_id =>
      match new_SSCreds cfg sec_id "username" "password" uuid w0 with
      | (Raise e, w1) => (Some (Uncaught e), w1)
      | (Ok cred, w1) =>
          let id := secret_id cred in
          match ident cfg cred w1 with
          | (Raise e, _, w2) => (Some (Uncaught e), w2)
          | (Ok i, cred', w2) =>
              match secret cfg cred' w2 with
              | (Raise e, _, w3) => (Some (Uncaught e), w3)
              | (Ok s, _, w3) =>
                  (None, write (report str_of id i s) w3)
              end
          end
      end
  end.

(** ** A concrete deployment

    A vault at a fixed base URL whose answers are scripted: the n-th
    request the process sends receives the n-th entry of the script, and
    the transport fails once the script is exhausted. *)
Module Scenario.

(** [s] between double quotes, as a JSON string is written. *)
Definition quoted (s : string) : string :=
  String quote (s ++ String quote EmptyString).

Definition base : string := "https://vault.example/".

Definition token_body : string :=
  "{" ++ quoted "access_token" ++ ":" ++ quoted "T1" ++ ","
      ++ quoted "token_type" ++ ":" ++ quoted "bearer" ++ ","
      ++ quoted "expires_in" ++ ":1200,"
      ++ quoted "refresh_token" ++ ":" ++ quoted "R1" ++ "}".

Definition token_json : pyval :=
  PyDict [("access_token", PyStr "T1"); ("token_type", PyStr "bearer");
          ("expires_in", PyInt 1200); ("refresh_token", PyStr "R1")].

(** The summary of a secret of an ordinary template. *)
Definition summary_body : string :=
  "{" ++ quoted "secretTemplateId" ++ ":6003,"
      ++ quoted "name" ++ ":" ++ quoted "db-prod" ++ "}".

Definition summary_json : pyval :=
  PyDict [("secretTemplateId", PyInt 6003); ("name", PyStr "db-prod")].

(** The summary of a secret of the template "IAM - Service Account". *)
Definition iam_summary_body : string :=
  "{" ++ quoted "secretTemplateId" ++ ":6041,"
      ++ quoted "name" ++ ":" ++ quoted "svc-iam" ++ "}".

Definition iam_summary_json : pyval :=
  PyDict [("secretTemplateId", PyInt 6041); ("name", PyStr "svc-iam")].

Definition otp_body : string :=
  "[{" ++ quoted "code" ++ ":" ++ quoted "123456" ++ ","
       ++ quoted "durationSeconds" ++ ":30,"
       ++ quoted "remainingSeconds" ++ ":12}]".

Definition otp_json : pyval :=
  PyList [PyDict [("code", PyStr "123456"); ("durationSeconds", PyInt 30);
                  ("remainingSeconds", PyInt 12)]].

(** The parser, on the bodies this vault sends. *)
Definition parse (body : string) : option pyval :=
  if String.eqb body token_body then Some token_json
  else if String.eqb body summary_body then Some summary_json
  else if String.eqb body iam_summary_body then Some iam_summary_json
  else if String.eqb body otp_body then Some otp_json
  else None.

Definition scripted (script : list outcome)
  : list request -> request -> outcome :=
  fun history _ => nth (length history) script NoReply.

Definition vault (script : list outcome) : setting :=
  mkSetting (Some "svc-user") (Some "svc-pass") (Some base)
    (scripted script) parse.

Definition answer (status : Z) (body : string) : outcome :=
  Reply (mkResponse status body).

Definition token_reply : outcome := answer 200 token_body.

Definition expired_body : string :=
  "{" ++ quoted "message" ++ ":"
      ++ quoted "Authentication failed or expired token" ++ "}".

Definition denied_body : string :=
  "{" ++ quoted "errorCode" ++ ":" ++ quoted "API_AccessDenied" ++ "}".

(** A process that has just started, and one in which a token was put
    into the module global from outside the module. *)
Definition started : world := mkWorld None None [] [].
Definition with_token : world := mkWorld (Some "stale") (Some "old") [] [].

(** An instance as the constructor leaves it for secret 1234, without
    its run of [model_post_init] (summary of an ordinary template). *)
Definition held : SSCreds :=
  set_sec_name (PyStr "db-prod")
    (set_sec_template (PyInt 6003)
       (set_s (Some httpx_Client)
          (fields 1234 "username" "password" "uuid-1"))).

(** The same for a secret of the template "IAM - Service Account". *)
Definition iam_held : SSCreds :=
  set_sec_name (PyStr "svc-iam")
    (set_sec_template (PyInt 6041)
       (set_s (Some httpx_Client)
          (fields 1234 "username" "password" "uuid-1"))).

Definition field_url : string := "api/v1/secrets/{id}/fields/{slug}".

End Scenario.

(** * Properties *)

(** ** The model on small inputs *)

Example strip_quoted_hello : strip quote (Scenario.quoted "hello") = "hello".
Proof. reflexivity. Qed.

Example strip_keeps_inner_quotes :
  strip quote (Scenario.quoted ("a" ++ Scenario.quoted "b" ++ "c"))
  = "a" ++ Scenario.quoted "b" ++ "c".
Proof. reflexivity. Qed.

Example denied_body_has_the_marker :
  contains access_denied_marker Scenario.denied_body = true /\
  contains expired_marker Scenario.denied_body = false.
Proof. split; reflexivity. Qed.

Example status_299_is_success_300_is_not :
  is_success (mkResponse 299 "") = true /\ is_success (mkResponse 300 "") = false.
Proof. split; reflexivity. Qed.

(** The constructor on secret 1234: a password grant, then the summary. *)
Example constructor_gives_held :
  let cfg := Scenario.vault [Scenario.token_reply;
                             Scenario.answer 200 Scenario.summary_body] in
  let '(made, w') :=
    new_SSCreds cfg 1234 "username" "password" "uuid-1" Scenario.started in
  made = Ok Scenario.held /\
  map req_method (sent w') = [POST; GET] /\
  stdout w' = ["Initializing Credential Request: uuid-1"].
Proof. vm_compute. repeat split. Qed.

(** The printed line of [main.py] for that secret: identity, then secret,
    each fetched with a token of its own. *)
Example main_scenario :
  let cfg := Scenario.vault [Scenario.token_reply;
                             Scenario.answer 200 (Scenario.quoted "svc-acct");
                             Scenario.token_reply;
                             Scenario.answer 200 (Scenario.quoted "P@ssw0rd")] in
  let '(i, self1, w1) := ident cfg Scenario.held Scenario.started in
  let '(s, _, w2) := secret cfg self1 w1 in
  i = Ok (PyStr "svc-acct") /\ s = Ok "P@ssw0rd" /\
  map req_method (sent w2) = [POST; GET; POST; GET].
Proof. vm_compute. repeat split. Qed.

Lemma in_SEC_NAME_AS_IDENT_iff v :
  in_SEC_NAME_AS_IDENT v = true <-> v = PyInt 6041 \/ v = PyInt 6047.
Proof.
  split.
  - destruct v as [ | [ | ] | z | | | ]; simpl; try discriminate.
    rewrite !orb_true_iff, !Z.eqb_eq. intros [-> | [-> | H]]; auto.
    discriminate.
  - intros [-> | ->]; reflexivity.
Qed.

(** ** Reasoning about runs *)

Lemma bind_run {A B} (m : M A) (k : A -> M B) self w r self' w' :
  bind m k self w = (r, self', w') ->
  (exists e, m self w = (Raise e, self', w') /\ r = Raise e) \/
  (exists a self1 w1, m self w = (Ok a, self1, w1) /\ k a self1 w1 = (r, self', w')).
Proof.
  unfold bind. destruct (m self w) as [[[a | e] self1] w1]; intro H.
  - right. eauto.
  - left. inversion H; subst. eauto.
Qed.

Lemma bind_at {A B} (m : M A) (k : A -> M B) self w res self1 w1 :
  m self w = (res, self1, w1) ->
  bind m k self w =
  match res with
  | Ok a => k a self1 w1
  | Raise e => (Raise e, self1, w1)
  end.
Proof. unfold bind. intros ->. reflexivity. Qed.

Lemma bind_ok {A B} (m : M A) (k : A -> M B) self w a self1 w1 :
  m self w = (Ok a, self1, w1) -> bind m k self w = k a self1 w1.
Proof. unfold bind. intros ->. reflexivity. Qed.

Lemma bind_raise {A B} (m : M A) (k : A -> M B) self w e self1 w1 :
  m self w = (Raise e, self1, w1) -> bind m k self w = (Raise e, self1, w1).
Proof. unfold bind. intros ->. reflexivity. Qed.

Lemma set_token_type_same self : self = set_token_type (token_type self) self.
Proof. destruct self; reflexivity. Qed.

Lemma evolves_refl self w : evolves self w self w.
Proof.
  split; auto using set_token_type_same.
  exists []. now rewrite app_nil_r.
Qed.

Lemma evolves_trans s1 w1 s2 w2 s3 w3 :
  evolves s1 w1 s2 w2 -> evolves s2 w2 s3 w3 -> evolves s1 w1 s3 w3.
Proof.
  intros [Hs Ha Hr [l Hl]] [Hs' Ha' Hr' [l' Hl']]. split.
  - rewrite Hs' at 1. rewrite Hs. reflexivity.
  - congruence.
  - congruence.
  - exists (l ++ l')%list. rewrite Hl', Hl, app_assoc. reflexivity.
Qed.

Lemma no_get_refl self w : no_get self w self w.
Proof. reflexivity. Qed.

Lemma no_get_trans s1 w1 s2 w2 s3 w3 :
  no_get s1 w1 s2 w2 -> no_get s2 w2 s3 w3 -> no_get s1 w1 s3 w3.
Proof. unfold no_get. congruence. Qed.

Section Respects.

Variable R : SSCreds -> world -> SSCreds -> world -> Prop.
Hypothesis R_refl : forall self w, R self w self w.
Hypothesis R_trans : forall s1 w1 s2 w2 s3 w3,
  R s1 w1 s2 w2 -> R s2 w2 s3 w3 -> R s1 w1 s3 w3.

Lemma respects_ret {A} (a : A) : respects R (ret a).
Proof. intros self w r self' w' H. inversion H; subst. apply R_refl. Qed.

Lemma respects_raise {A} e : respects R (@raise A e).
Proof. intros self w r self' w' H. inversion H; subst. apply R_refl. Qed.

Lemma respects_lift {A} (x : result A) : respects R (lift x).
Proof. intros self w r self' w' H. inversion H; subst. apply R_refl. Qed.

Lemma respects_get_self : respects R get_self.
Proof. intros self w r self' w' H. inversion H; subst. apply R_refl. Qed.

Lemma respects_bind {A B} (m : M A) (k : A -> M B) :
  respects R m -> (forall a, respects R (k a)) -> respects R (bind m k).
Proof.
  intros Hm Hk self w r self' w' H.
  apply bind_run in H as [(e & H & _) | (a & self1 & w1 & H1 & H2)].
  - exact (Hm _ _ _ _ _ H).
  - exact (R_trans _ _ _ _ _ _ (Hm _ _ _ _ _ H1) (Hk a _ _ _ _ _ H2)).
Qed.

Lemma respects_raise_for_status r : respects R (raise_for_status r).
Proof.
  unfold raise_for_status. destruct (is_success r);
    [apply respects_ret | apply respects_raise].
Qed.

Lemma respects_env_concat a b : respects R (env_concat a b).
Proof.
  unfold env_concat. destruct a; [apply respects_ret | apply respects_raise].
Qed.

Lemma respects_session attr : respects R (session attr).
Proof.
  unfold session. apply respects_bind; [apply respects_get_self | intro s].
  destruct (_s s); [apply respects_ret | apply respects_raise].
Qed.

Lemma respects_json cfg r : respects R (json cfg r).
Proof.
  unfold json. destruct (parse_json cfg (text r));
    [apply respects_ret | apply respects_raise].
Qed.

Lemma respects_cachedAccessToken : respects R _cachedAccessToken.
Proof. intros self w r self' w' H. inversion H; subst. apply R_refl. Qed.

(** The three things a request method does besides sequencing. *)
Hypothesis R_send : forall cfg r, is_GET r = false -> respects R (send cfg r).
Hypothesis R_token_type : respects R (modify_self (set_token_type cached)).

Lemma respects_getServerAccessToken cfg :
  respects R (_getServerAccessToken cfg).
Proof.
  unfold _getServerAccessToken. cbv zeta.
  repeat first
    [ apply respects_session | apply respects_env_concat
    | apply respects_raise_for_status | apply respects_json
    | apply respects_lift | apply respects_ret
    | apply R_send; reflexivity
    | apply respects_bind; [ | intro ] ].
Qed.

Lemma respects_accessToken cfg : respects R (_accessToken cfg).
Proof.
  unfold _accessToken.
  apply respects_bind; [apply respects_cachedAccessToken | intros [t | ]].
  - apply respects_bind; [apply R_token_type | intro; apply respects_ret].
  - apply respects_getServerAccessToken.
Qed.

Lemma respects_getHeaders cfg : respects R (_getHeaders cfg).
Proof.
  unfold _getHeaders.
  apply respects_bind; [apply respects_accessToken | intros []];
    first [apply respects_ret | apply respects_raise].
Qed.

End Respects.

Ltac respects_tac :=
  repeat match goal with
  | |- respects _ (bind _ _) => apply respects_bind; [solve [auto] | | intro]
  | |- respects _ (ret _) => apply respects_ret; solve [auto]
  | |- respects _ (raise _) => apply respects_raise; solve [auto]
  | |- respects _ (lift _) => apply respects_lift; solve [auto]
  | |- respects _ get_self => apply respects_get_self; solve [auto]
  | |- respects _ (session _) => apply respects_session; solve [auto]
  | |- respects _ (env_concat _ _) => apply respects_env_concat; solve [auto]
  | |- respects _ (raise_for_status _) =>
      apply respects_raise_for_status; solve [auto]
  | |- respects _ (json _ _) => apply respects_json; solve [auto]
  | |- respects _ (_getHeaders _) => apply respects_getHeaders; solve [auto]
  | |- respects _ (if ?b then _ else _) => destruct b
  | |- respects _ (match ?x with _ => _ end) => destruct x
  | |- _ => solve [auto]
  end.

Section RespectsRequests.

Variable R : SSCreds -> world -> SSCreds -> world -> Prop.
Hypothesis R_refl : forall self w, R self w self w.
Hypothesis R_trans : forall s1 w1 s2 w2 s3 w3,
  R s1 w1 s2 w2 -> R s2 w2 s3 w3 -> R s1 w1 s3 w3.
Hypothesis R_send : forall cfg r, respects R (send cfg r).
Hypothesis R_token_type : respects R (modify_self (set_token_type cached)).
Hypothesis R_print : forall line, respects R (print line).

Lemma respects_session_get cfg url params :
  respects R (session_get cfg url params).
Proof. unfold session_get. respects_tac. Qed.

Lemma respects_sendRequest cfg url params :
  respects R (sendRequest cfg url params).
Proof.
  pose proof respects_session_get. unfold sendRequest. respects_tac.
Qed.

Lemma respects_get cfg url params : respects R (get cfg url params).
Proof. pose proof respects_sendRequest. unfold get. respects_tac. Qed.

Lemma respects_getSlug cfg slug : respects R (_getSlug cfg slug).
Proof. pose proof respects_get. unfold _getSlug. respects_tac. Qed.

Lemma respects_getTOTP cfg : respects R (_getTOTP cfg).
Proof. pose proof respects_get. unfold _getTOTP. respects_tac. Qed.

Lemma respects_getSecretSummary cfg : respects R (_getSecretSummary cfg).
Proof. pose proof respects_get. unfold _getSecretSummary. respects_tac. Qed.

Lemma respects_otp cfg : respects R (otp cfg).
Proof. pose proof respects_getTOTP. unfold otp. respects_tac. Qed.

End RespectsRequests.

(** ** The frame of the request methods *)

Lemma evolves_send cfg r : respects evolves (send cfg r).
Proof.
  intros self w res self' w' H. unfold send in H.
  destruct (remote cfg (sent w) r); inversion H; subst;
    (split; simpl; auto using set_token_type_same; now exists [r]).
Qed.

Lemma evolves_token_type k : respects evolves (modify_self (set_token_type k)).
Proof.
  intros self w res self' w' H. inversion H; subst.
  split; simpl; auto. exists []. now rewrite app_nil_r.
Qed.

Lemma evolves_print line : respects evolves (print line).
Proof.
  intros self w res self' w' H. inversion H; subst.
  split; simpl; auto using set_token_type_same. exists []. now rewrite app_nil_r.
Qed.

Lemma get_evolves cfg url params : respects evolves (get cfg url params).
Proof.
  apply respects_get;
    auto using evolves_refl, evolves_send, evolves_token_type, evolves_print.
  exact evolves_trans.
Qed.

Lemma getSlug_evolves cfg slug : respects evolves (_getSlug cfg slug).
Proof.
  apply respects_getSlug;
    auto using evolves_refl, evolves_send, evolves_token_type, evolves_print.
  exact evolves_trans.
Qed.

Lemma otp_evolves cfg : respects evolves (otp cfg).
Proof.
  apply respects_otp;
    auto using evolves_refl, evolves_send, evolves_token_type, evolves_print.
  exact evolves_trans.
Qed.

Lemma getSecretSummary_evolves cfg : respects evolves (_getSecretSummary cfg).
Proof.
  apply respects_getSecretSummary;
    auto using evolves_refl, evolves_send, evolves_token_type, evolves_print.
  exact evolves_trans.
Qed.

Lemma accessToken_evolves cfg : respects evolves (_accessToken cfg).
Proof.
  apply respects_accessToken;
    auto using evolves_refl, evolves_send, evolves_token_type.
  exact evolves_trans.
Qed.

Lemma session_get_evolves cfg url params :
  respects evolves (session_get cfg url params).
Proof.
  apply respects_session_get;
    auto using evolves_refl, evolves_send, evolves_token_type.
  exact evolves_trans.
Qed.

Lemma evolves_session s w s' w' : evolves s w s' w' -> _s s' = _s s.
Proof. intros [-> _ _ _]. reflexivity. Qed.

(** ** One send, then [get] as a whole, in terms of what came back *)

Lemma session_get_has_session cfg url params self w r self' w' :
  session_get cfg url params self w = (Ok r, self', w') ->
  exists c, _s self = Some c.
Proof.
  unfold session_get, session, bind, get_self. simpl.
  destruct (_s self) as [c | ]; [eauto | discriminate].
Qed.

Lemma sendRequest_answered cfg url params self w r self' w' :
  session_get cfg url params self w = (Ok r, self', w') ->
  sendRequest cfg url params self w = (checked r, self', w').
Proof.
  intro H. destruct (session_get_has_session _ _ _ _ _ _ _ _ H) as [c Hc].
  unfold sendRequest, bind at 1, get_self. rewrite Hc.
  unfold bind at 1, ret at 1. rewrite (bind_ok _ _ _ _ _ _ _ H).
  unfold checked, raise_for_status, bind, ret, raise.
  destruct (is_success r); [ | reflexivity].
  destruct (contains _ _); reflexivity.
Qed.

Lemma sendRequest_unanswered cfg url params self w c e self' w' :
  _s self = Some c ->
  session_get cfg url params self w = (Raise e, self', w') ->
  sendRequest cfg url params self w = (Raise e, self', w').
Proof.
  intros Hc H. unfold sendRequest, bind at 1, get_self. rewrite Hc.
  unfold bind at 1, ret at 1. now rewrite (bind_raise _ _ _ _ _ _ _ H).
Qed.

Lemma checked_ok r r' : checked r = Ok r' -> r' = r /\ is_success r = true
  /\ contains access_denied_marker (text r) = false.
Proof.
  unfold checked. destruct (is_success r); [ | discriminate].
  destruct (contains _ _); [discriminate | ]. intro H; inversion H; auto.
Qed.

(** [get] in full, from the response to the first request and, when there
    is one, the response to the second. *)
Lemma get_run cfg url params self w r1 self1 w1 :
  session_get cfg url params self w = (Ok r1, self1, w1) ->
  get cfg url params self w =
  match checked r1 with
  | Raise e => (Raise e, self1, w1)
  | Ok r =>
      if contains expired_marker (text r)
      then match session_get cfg url params self1 (told_to_repeat w1) with
           | (Ok r2, self2, w2) => (checked r2, self2, w2)
           | (Raise e, self2, w2) => (Raise e, self2, w2)
           end
      else (Ok r, self1, w1)
  end.
Proof.
  intro H. pose proof (sendRequest_answered _ _ _ _ _ _ _ _ H) as Hs.
  destruct (session_get_has_session _ _ _ _ _ _ _ _ H) as [c Hc].
  pose proof (session_get_evolves _ _ _ _ _ _ _ _ H) as Hev.
  unfold get, bind at 1. rewrite Hs.
  destruct (checked r1) as [r | e] eqn:Hr; [ | reflexivity].
  destruct (contains expired_marker (text r)); [ | reflexivity].
  unfold bind at 1, print at 1. fold (told_to_repeat w1).
  assert (Hc1 : _s self1 = Some c)
    by (rewrite (evolves_session _ _ _ _ Hev); exact Hc).
  destruct (session_get cfg url params self1 (told_to_repeat w1))
    as [[[r2 | e] self2] w2] eqn:H2.
  - rewrite (bind_at _ _ _ _ _ _ _ (sendRequest_answered _ _ _ _ _ _ _ _ H2)).
    destruct (checked r2) as [r' | e'] eqn:Hr2; [ | reflexivity].
    apply checked_ok in Hr2 as (-> & Hok & _).
    unfold bind, raise_for_status, ret. now rewrite Hok.
  - now rewrite (bind_raise _ _ _ _ _ _ _
                   (sendRequest_unanswered _ _ _ _ _ _ _ _ _ Hc1 H2)).
Qed.

(** ** Which GETs go out *)

Lemma send_gets cfg r self w res self' w' :
  send cfg r self w = (res, self', w') ->
  gets w' = (gets w ++ if is_GET r then [r] else [])%list.
Proof.
  unfold send, gets. intro H.
  assert (sent w' = (sent w ++ [r])%list) as ->
    by (destruct (remote cfg (sent w) r); inversion H; reflexivity).
  rewrite filter_app. simpl. now destruct (is_GET r).
Qed.

Lemma no_get_send cfg r : is_GET r = false -> respects no_get (send cfg r).
Proof.
  intros Hr self w res self' w' H. unfold no_get.
  rewrite (send_gets _ _ _ _ _ _ _ H), Hr. apply app_nil_r.
Qed.

Lemma no_get_token_type k : respects no_get (modify_self (set_token_type k)).
Proof. intros self w res self' w' H. inversion H; subst. reflexivity. Qed.

Lemma getHeaders_no_get cfg : respects no_get (_getHeaders cfg).
Proof.
  apply respects_getHeaders;
    auto using no_get_refl, no_get_send, no_get_token_type.
  exact no_get_trans.
Qed.


Lemma session_get_gets cfg url params self w res self' w' :
  session_get cfg url params self w = (res, self', w') ->
  (gets w' = gets w /\ exists e, res = Raise e) \/
  (exists r, get_request_of cfg url params r /\ gets w' = (gets w ++ [r])%list).
Proof.
  unfold session_get. intro H.
  apply bind_run in H as [(e & H & ->) | (c & s1 & w1 & H1 & H)].
  { left. split; [ | eauto].
    exact (respects_session no_get no_get_refl no_get_trans _ _ _ _ _ _ H). }
  assert (E1 : gets w1 = gets w)
    by exact (respects_session no_get no_get_refl no_get_trans _ _ _ _ _ _ H1).
  apply bind_run in H as [(e & H & ->) | (h & s2 & w2 & H2 & H)].
  { left. split; [ | eauto]. rewrite <- E1. exact (getHeaders_no_get _ _ _ _ _ _ H). }
  assert (E2 : gets w2 = gets w)
    by (rewrite <- E1; exact (getHeaders_no_get _ _ _ _ _ _ H2)).
  unfold bind, env_concat in H.
  destruct (SSAPP_BASEURL cfg) as [base | ] eqn:Hb; simpl in H.
  - right. exists (mkRequest GET (base ++ url) h params []). split.
    + exists base, h. auto.
    + rewrite (send_gets _ _ _ _ _ _ _ H), E2. reflexivity.
  - inversion H; subst. left. split; eauto.
Qed.

Lemma session_get_ok_gets cfg url params self w r self' w' :
  session_get cfg url params self w = (Ok r, self', w') ->
  exists q, get_request_of cfg url params q /\ gets w' = (gets w ++ [q])%list.
Proof.
  intro H. destruct (session_get_gets _ _ _ _ _ _ _ _ H) as [[_ [e He]] | H'].
  - discriminate.
  - exact H'.
Qed.

Lemma gets_told_to_repeat w : gets (told_to_repeat w) = gets w.
Proof. reflexivity. Qed.

(** [get] sends the same GET once or twice, never more, and nothing when
    the session is missing or no token could be had. *)
Lemma get_gets cfg url params self w res self' w' :
  get cfg url params self w = (res, self', w') ->
  exists l, gets w' = (gets w ++ l)%list /\ (length l <= 2)%nat /\
            Forall (get_request_of cfg url params) l.
Proof.
  intro H.
  destruct (session_get cfg url params self w) as [[[r1 | e] self1] w1] eqn:H1.
  - rewrite (get_run _ _ _ _ _ _ _ _ H1) in H.
    destruct (session_get_ok_gets _ _ _ _ _ _ _ _ H1) as (q & Hq & E1).
    assert (Once : (res, self', w') = (res, self1, w1) ->
                   exists l, gets w' = (gets w ++ l)%list /\ (length l <= 2)%nat /\
                             Forall (get_request_of cfg url params) l).
    { intro E. inversion E; subst. exists [q]. simpl. repeat split; auto. }
    destruct (checked r1) as [r | e]; [ | inversion H; subst; apply Once; reflexivity].
    destruct (contains expired_marker (text r));
      [ | inversion H; subst; apply Once; reflexivity].
    destruct (session_get cfg url params self1 (told_to_repeat w1))
      as [[res2 self2] w2] eqn:H2.
    assert (w' = w2) as -> by (destruct res2; inversion H; reflexivity).
    destruct (session_get_gets _ _ _ _ _ _ _ _ H2) as [[E2 _] | (q2 & Hq2 & E2)];
      rewrite gets_told_to_repeat, E1 in E2.
    + exists [q]. simpl. repeat split; auto.
    + exists [q; q2]. rewrite E2, <- app_assoc. simpl. repeat split; auto.
  - unfold get, sendRequest, bind at 1, bind at 1, get_self in H.
    destruct (_s self) as [c | ] eqn:Hc.
    + unfold bind at 1, ret at 1 in H.
      rewrite (bind_raise _ _ _ _ _ _ _ H1) in H. inversion H; subst.
      destruct (session_get_gets _ _ _ _ _ _ _ _ H1) as [[E _] | (q & Hq & E)].
      * exists []. rewrite app_nil_r. simpl. auto.
      * exists [q]. simpl. auto.
    + unfold bind, raise in H. inversion H; subst.
      exists []. rewrite app_nil_r. simpl. auto.
Qed.

Lemma status_200_is_success r : status_code r = 200 -> is_success r = true.
Proof. unfold is_success. intros ->. reflexivity. Qed.

Lemma session_get_sends cfg url params self w res self' w' h s1 w1 :
  session_get cfg url params self w = (res, self', w') ->
  _s self <> None ->
  _getHeaders cfg self w = (Ok h, s1, w1) ->
  SSAPP_BASEURL cfg <> None ->
  length (gets w') = S (length (gets w)).
Proof.
  unfold session_get, session, bind at 1, bind at 1, get_self.
  intros H Hs Hh Hb. destruct (_s self) as [c | ]; [ | congruence].
  unfold ret at 1 in H. rewrite (bind_ok _ _ _ _ _ _ _ Hh) in H.
  destruct (SSAPP_BASEURL cfg) as [base | ]; [ | congruence].
  unfold bind, env_concat, ret in H.
  rewrite (send_gets _ _ _ _ _ _ _ H). simpl.
  rewrite length_app. simpl.
  rewrite (getHeaders_no_get _ _ _ _ _ _ Hh). lia.
Qed.

Lemma session_get_has_base cfg url params self w r self' w' :
  session_get cfg url params self w = (Ok r, self', w') ->
  SSAPP_BASEURL cfg <> None.
Proof.
  intro H. destruct (session_get_ok_gets _ _ _ _ _ _ _ _ H)
    as (q & (base & h & Hb & _) & _). congruence.
Qed.

(** ** The authenticated GET *)

(** C7: whenever a response to one of the GETs of [get] (the first, or the
    one sent again) has status 200 and a body that contains the
    access-denied marker, [get] raises the run-time error "Unable to
    retrieve secret, access denied." and does not return the response. *)
Theorem access_denied_in_body_raises cfg url params self w r self' w' :
  answered cfg url params self w r self' w' ->
  status_code r = 200 ->
  contains access_denied_marker (text r) = true ->
  get cfg url params self w =
  (Raise (RuntimeError access_denied_message), self', w').
Proof.
  intros Ha Hst Hm. apply status_200_is_success in Hst.
  destruct Ha as [r self1 w1 H1 | r1 self1 w1 r2 self2 w2 H1 Hok1 Hd1 He1 H2];
    rewrite (get_run _ _ _ _ _ _ _ _ H1); unfold checked.
  - now rewrite Hst, Hm.
  - rewrite Hok1, Hd1, He1, H2, Hst, Hm. reflexivity.
Qed.

Lemma access_denied_in_body_raises_witness :
  fst (get (Scenario.vault [Scenario.token_reply;
                            Scenario.answer 200 Scenario.denied_body])
         Scenario.field_url [] Scenario.held Scenario.started)
  = (Raise (RuntimeError access_denied_message), Scenario.held).
Proof.
  erewrite access_denied_in_body_raises.
  - reflexivity.
  - apply answered_first. vm_compute. reflexivity.
  - reflexivity.
  - vm_compute. reflexivity.
Defined.

(** C3, as the code has it: the first response is checked for its status,
    then for the access-denied marker, then for the expired-token marker;
    the response to the request sent again is checked for its status and
    for the access-denied marker, and not for the expired-token marker. *)
Theorem retry_checks_status_and_access_denied
    cfg url params self w r1 self1 w1 :
  session_get cfg url params self w = (Ok r1, self1, w1) ->
  (is_success r1 = false ->
   get cfg url params self w = (Raise (HTTPStatusError r1), self1, w1)) /\
  (is_success r1 = true ->
   contains access_denied_marker (text r1) = true ->
   get cfg url params self w =
   (Raise (RuntimeError access_denied_message), self1, w1)) /\
  (is_success r1 = true ->
   contains access_denied_marker (text r1) = false ->
   contains expired_marker (text r1) = false ->
   get cfg url params self w = (Ok r1, self1, w1)) /\
  (is_success r1 = true ->
   contains access_denied_marker (text r1) = false ->
   contains expired_marker (text r1) = true ->
   forall r2 self2 w2,
     session_get cfg url params self1 (told_to_repeat w1) = (Ok r2, self2, w2) ->
     get cfg url params self w =
     (if is_success r2
      then if contains access_denied_marker (text r2)
           then Raise (RuntimeError access_denied_message)
           else Ok r2
      else Raise (HTTPStatusError r2),
      self2, w2)).
Proof.
  intro H1. rewrite (get_run _ _ _ _ _ _ _ _ H1). unfold checked.
  repeat split.
  - now intros ->.
  - now intros -> ->.
  - now intros -> -> ->.
  - intros -> -> -> r2 self2 w2 ->. reflexivity.
Qed.

(** The request is sent again, and the second response, which still
    carries the expired-token marker, is returned. *)
Lemma retry_checks_status_and_access_denied_witness :
  fst (get (Scenario.vault [Scenario.token_reply;
                            Scenario.answer 200 Scenario.expired_body;
                            Scenario.token_reply;
                            Scenario.answer 200 Scenario.expired_body])
         Scenario.field_url [] Scenario.held Scenario.started)
  = (Ok (mkResponse 200 Scenario.expired_body), Scenario.held).
Proof.
  edestruct (retry_checks_status_and_access_denied
               (Scenario.vault [Scenario.token_reply;
                                Scenario.answer 200 Scenario.expired_body;
                                Scenario.token_reply;
                                Scenario.answer 200 Scenario.expired_body])
               Scenario.field_url [] Scenario.held Scenario.started)
    as (_ & _ & _ & Hagain).
  - vm_compute. reflexivity.
  - specialize (Hagain eq_refl eq_refl eq_refl).
    specialize (Hagain _ _ _ ltac:(vm_compute; reflexivity)).
    rewrite Hagain. reflexivity.
Defined.

(** C3, as stated, fails: a response to the request sent again that has
    status 200 and carries the access-denied marker is not returned. *)
Lemma retry_is_checked_for_access_denied : ~ stated_retry_checks_status_only.
Proof.
  intro H.
  specialize (H (Scenario.vault [Scenario.token_reply;
                                 Scenario.answer 200 Scenario.expired_body;
                                 Scenario.token_reply;
                                 Scenario.answer 200 Scenario.denied_body])
                Scenario.field_url [] Scenario.held Scenario.started).
  vm_compute in H.
  specialize (H _ _ _ _ _ _ eq_refl eq_refl eq_refl eq_refl eq_refl eq_refl).
  discriminate H.
Qed.

(** C1, as the code has it: when the first response has a success status
    and its body carries the expired-token marker and not the access-denied
    marker, [get] resolves a token once more and sends the request again,
    once: one or two GETs have gone out when it ends, two as soon as the
    second token resolution succeeds; a second response with a success
    status (200 included) and no access-denied marker is what [get]
    returns, and nothing is sent after it. *)
Theorem expired_marker_retries_once cfg url params self w r1 self1 w1 :
  session_get cfg url params self w = (Ok r1, self1, w1) ->
  is_success r1 = true ->
  contains access_denied_marker (text r1) = false ->
  contains expired_marker (text r1) = true ->
  forall res self' w',
    get cfg url params self w = (res, self', w') ->
    (length (gets w) + 1 <= length (gets w') <= length (gets w) + 2)%nat /\
    (forall h s2 w2,
       _getHeaders cfg self1 (told_to_repeat w1) = (Ok h, s2, w2) ->
       length (gets w') = (length (gets w) + 2)%nat) /\
    (forall r2 self2 w2,
       session_get cfg url params self1 (told_to_repeat w1) = (Ok r2, self2, w2) ->
       is_success r2 = true ->
       contains access_denied_marker (text r2) = false ->
       (res, self', w') = (Ok r2, self2, w2)).
Proof.
  intros H1 Hok Hd He res self' w' H.
  rewrite (get_run _ _ _ _ _ _ _ _ H1) in H. unfold checked in H.
  rewrite Hok, Hd, He in H.
  destruct (session_get_ok_gets _ _ _ _ _ _ _ _ H1) as (q & _ & E1).
  destruct (session_get cfg url params self1 (told_to_repeat w1))
    as [[res2 self2] w2] eqn:H2.
  assert (Hw : w' = w2) by (destruct res2; inversion H; reflexivity).
  subst w'.
  assert (Hs1 : _s self1 <> None).
  { destruct (session_get_has_session _ _ _ _ _ _ _ _ H1) as [c Hc].
    rewrite (evolves_session _ _ _ _ (session_get_evolves _ _ _ _ _ _ _ _ H1)).
    congruence. }
  repeat split.
  - destruct (session_get_gets _ _ _ _ _ _ _ _ H2) as [[E2 _] | (q2 & _ & E2)];
      rewrite gets_told_to_repeat, E1 in E2; rewrite E2;
      rewrite ?length_app; simpl; lia.
  - destruct (session_get_gets _ _ _ _ _ _ _ _ H2) as [[E2 _] | (q2 & _ & E2)];
      rewrite gets_told_to_repeat, E1 in E2; rewrite E2;
      rewrite ?length_app; simpl; lia.
  - intros h s2 w3 Hh.
    rewrite (session_get_sends _ _ _ _ _ _ _ _ _ _ _ H2 Hs1 Hh
               (session_get_has_base _ _ _ _ _ _ _ _ H1)).
    rewrite gets_told_to_repeat, E1, length_app. simpl. lia.
  - intros r2 s2 w3 E Hok2 Hd2. inversion E; subst.
    unfold checked in H. rewrite Hok2, Hd2 in H. symmetry. exact H.
Qed.

Lemma expired_marker_retries_once_witness :
  let cfg := Scenario.vault [Scenario.token_reply;
                             Scenario.answer 200 Scenario.expired_body;
                             Scenario.token_reply;
                             Scenario.answer 200 (Scenario.quoted "svc-acct")] in
  let '(res, self', w') :=
    get cfg Scenario.field_url [] Scenario.held Scenario.started in
  res = Ok (mkResponse 200 (Scenario.quoted "svc-acct")) /\
  length (gets w') = 2%nat.
Proof.
  cbv zeta.
  destruct (get _ Scenario.field_url [] Scenario.held Scenario.started)
    as [[res self'] w'] eqn:H.
  edestruct (expired_marker_retries_once
               (Scenario.vault
                  [Scenario.token_reply;
                   Scenario.answer 200 Scenario.expired_body;
                   Scenario.token_reply;
                   Scenario.answer 200 (Scenario.quoted "svc-acct")])
               Scenario.field_url [] Scenario.held Scenario.started)
    as (_ & Htwice & Hback).
  - vm_compute. reflexivity.
  - reflexivity.
  - reflexivity.
  - reflexivity.
  - exact H.
  - split.
    + specialize (Hback _ _ _ ltac:(vm_compute; reflexivity) eq_refl eq_refl).
      injection Hback as -> _ _. reflexivity.
    + exact (Htwice _ _ _ ltac:(vm_compute; reflexivity)).
Defined.

(** C1, as stated, fails: a first response with status 401 whose body
    carries the expired-token marker ends [get] with the status error, and
    the request is not sent again. *)
Lemma expired_marker_with_error_status_is_not_retried :
  ~ stated_expired_marker_retries.
Proof.
  intro H.
  specialize (H (Scenario.vault [Scenario.token_reply;
                                 Scenario.answer 401 Scenario.expired_body])
                Scenario.field_url [] Scenario.held Scenario.started).
  vm_compute in H.
  specialize (H _ _ _ eq_refl eq_refl _ _ _ eq_refl).
  destruct H as (_ & _ & H). discriminate H.
Qed.

(** When the token cannot be had again, the request is not sent a second
    time: the error of the password grant is what [get] raises. *)
Lemma retry_needs_a_token :
  let cfg := Scenario.vault [Scenario.token_reply;
                             Scenario.answer 200 Scenario.expired_body;
                             Scenario.answer 503 ""] in
  let '(res, _, w') :=
    get cfg Scenario.field_url [] Scenario.held Scenario.started in
  res = Raise (HTTPStatusError (mkResponse 503 "")) /\
  map req_method (sent w') = [POST; GET; POST].
Proof. vm_compute. repeat split. Qed.

(** The two assignments of [None] in [get] reach no module global: a token
    found in the global before [get] is there after it, and the request
    sent again carries it once more. *)
Lemma expired_marker_leaves_the_globals :
  let cfg := Scenario.vault [Scenario.answer 200 Scenario.expired_body;
                             Scenario.answer 200 (Scenario.quoted "svc-acct")] in
  let '(res, self', w') :=
    get cfg Scenario.field_url [] Scenario.held Scenario.with_token in
  current_access_token w' = Some "stale" /\
  current_refresh_token w' = Some "old" /\
  map req_headers (sent w') = [[("Authorization", "Bearer stale")];
                               [("Authorization", "Bearer stale")]].
Proof. vm_compute. repeat split. Qed.

Lemma get_keeps_the_globals cfg url params self w res self' w' :
  get cfg url params self w = (res, self', w') ->
  current_access_token w' = current_access_token w /\
  current_refresh_token w' = current_refresh_token w.
Proof. intro H. destruct (get_evolves _ _ _ _ _ _ _ _ H). auto. Qed.

(** ** The memoised accessors *)

Lemma cached_property_hit {A} slot store (body : M A) self w v :
  slot self = Some v ->
  cached_property slot store body self w = (Ok v, self, w).
Proof. unfold cached_property, bind, get_self. now intros ->. Qed.

Lemma cached_property_miss {A} slot store (body : M A) self w :
  slot self = None ->
  cached_property slot store body self w =
  match body self w with
  | (Ok v, self', w') => (Ok v, store (Some v) self', w')
  | (Raise e, self', w') => (Raise e, self', w')
  end.
Proof.
  unfold cached_property, bind at 1, get_self. intros ->.
  unfold bind. destruct (body self w) as [[[v | e] self'] w']; reflexivity.
Qed.

Lemma ident_body_by_name cfg self w :
  name_is_ident self = true ->
  ident_body cfg self w = (Ok (_sec_name self), set_slug_ident sentinel self, w).
Proof.
  unfold name_is_ident, ident_body, bind at 1, get_self. now intros ->.
Qed.

Lemma ident_body_by_slug cfg self w :
  name_is_ident self = false ->
  ident_body cfg self w =
  match _getSlug cfg (slug_ident self) self w with
  | (Ok v, self', w') => (Ok (PyStr v), self', w')
  | (Raise e, self', w') => (Raise e, self', w')
  end.
Proof.
  unfold name_is_ident, ident_body, bind at 1, get_self. intros ->.
  unfold bind, ret.
  destruct (_getSlug cfg (slug_ident self) self w) as [[[v | e] s'] w'];
    reflexivity.
Qed.

Lemma secret_body_run cfg self w :
  secret_body cfg self w = _getSlug cfg (slug_secret self) self w.
Proof. reflexivity. Qed.

Lemma evolves_same s w s' w' : evolves s w s' w' -> same_but_token_type s s'.
Proof. intros [-> _ _ _]. split; reflexivity. Qed.

(** What an access may do to the fields the accessors read. *)
Lemma access_fields cfg a self w :
  let self' := fst (access cfg a self w) in
  secret_id self' = secret_id self /\
  _sec_template self' = _sec_template self /\
  _sec_name self' = _sec_name self /\
  (forall v, ident_memo self = Some v -> ident_memo self' = Some v) /\
  (forall v, secret_memo self = Some v -> secret_memo self' = Some v) /\
  (settled self -> settled self').
Proof.
  destruct a; simpl.
  - (* ident *)
    unfold ident. destruct (ident_memo self) as [v0 | ] eqn:Hm.
    + rewrite (cached_property_hit _ _ _ _ _ _ Hm). simpl.
      repeat apply conj; auto; congruence.
    + rewrite (cached_property_miss _ _ _ _ _ Hm).
      destruct (name_is_ident self) eqn:Hn.
      * rewrite (ident_body_by_name _ _ _ Hn). simpl.
        repeat apply conj; auto; try discriminate.
        intros _ v Hv _. simpl in Hv. inversion Hv. auto.
      * rewrite (ident_body_by_slug _ _ _ Hn).
        destruct (_getSlug cfg (slug_ident self) self w)
          as [[[v | e] s'] w'] eqn:Hg;
          destruct (evolves_same _ _ _ _ (getSlug_evolves _ _ _ _ _ _ _ Hg));
          simpl; repeat apply conj; auto; try congruence.
        intros _ v0 _ Hn'. unfold name_is_ident in *. simpl in Hn'.
        rewrite same_slug_ident0, same_sec_template0 in Hn'. congruence.
  - (* secret *)
    unfold secret. destruct (secret_memo self) as [v0 | ] eqn:Hm.
    + rewrite (cached_property_hit _ _ _ _ _ _ Hm). simpl.
      repeat apply conj; auto; congruence.
    + rewrite (cached_property_miss _ _ _ _ _ Hm).
      rewrite secret_body_run.
      destruct (_getSlug cfg (slug_secret self) self w)
        as [[[v | e] s'] w'] eqn:Hg;
        destruct (evolves_same _ _ _ _ (getSlug_evolves _ _ _ _ _ _ _ Hg));
        simpl; repeat apply conj; auto; try congruence;
        intros Hset v0 Hv Hn'; unfold settled, name_is_ident in *;
        simpl in *; rewrite ?same_slug_ident0, ?same_sec_template0,
                      ?same_sec_name0, ?same_ident_memo0 in *; auto.
  - (* otp *)
    destruct (otp cfg self w) as [[r s'] w'] eqn:Ho.
    destruct (evolves_same _ _ _ _ (otp_evolves _ _ _ _ _ _ Ho)).
    simpl; repeat apply conj; auto; try congruence.
    intros Hset v0 Hv Hn'; unfold settled, name_is_ident in *;
      rewrite ?same_slug_ident0, ?same_sec_template0,
        ?same_sec_name0, ?same_ident_memo0 in *; auto.
Qed.

Lemma after_fields cfg later : forall self,
  secret_id (after cfg later self) = secret_id self /\
  _sec_template (after cfg later self) = _sec_template self /\
  _sec_name (after cfg later self) = _sec_name self /\
  (forall v, ident_memo self = Some v ->
             ident_memo (after cfg later self) = Some v) /\
  (forall v, secret_memo self = Some v ->
             secret_memo (after cfg later self) = Some v) /\
  (settled self -> settled (after cfg later self)).
Proof.
  induction later as [ | [a w] rest IH]; intro self; simpl.
  - repeat apply conj; auto.
  - destruct (access_fields cfg a self w) as (E1 & E2 & E3 & E4 & E5 & E6).
    destruct (IH (fst (access cfg a self w))) as (F1 & F2 & F3 & F4 & F5 & F6).
    repeat apply conj; try congruence; auto.
Qed.

Lemma read_memo cfg a self w v :
  memo_of a self = Some v -> read cfg a self w = (Ok v, self, w).
Proof.
  destruct a; simpl; intro H.
  - apply cached_property_hit. exact H.
  - destruct (secret_memo self) as [s | ] eqn:Hs; [ | discriminate].
    inversion H; subst. unfold secret.
    now rewrite (bind_ok _ _ _ _ _ _ _ (cached_property_hit _ _ _ _ _ _ Hs)).
Qed.

Lemma read_ok_memo cfg a self w v self' w' :
  read cfg a self w = (Ok v, self', w') -> memo_of a self' = Some v.
Proof.
  destruct a; simpl.
  - unfold ident. destruct (ident_memo self) as [v0 | ] eqn:Hm.
    + rewrite (cached_property_hit _ _ _ _ _ _ Hm). intro H. inversion H; subst.
      exact Hm.
    + rewrite (cached_property_miss _ _ _ _ _ Hm).
      destruct (ident_body cfg self w) as [[[v0 | e] s] w0]; intro H;
        inversion H; subst. reflexivity.
  - intro H. apply bind_run in H as [(e & _ & H) | (s & s1 & w1 & H1 & H)];
      [discriminate | ].
    inversion H; subst. clear H. revert H1. unfold secret.
    destruct (secret_memo self) as [v0 | ] eqn:Hm.
    + rewrite (cached_property_hit _ _ _ _ _ _ Hm). intro H. inversion H; subst.
      now rewrite Hm.
    + rewrite (cached_property_miss _ _ _ _ _ Hm).
      destruct (secret_body cfg self w) as [[[v0 | e] s0] w0]; intro H;
        inversion H; subst. reflexivity.
Qed.

Lemma after_memo cfg a later self v :
  memo_of a self = Some v -> memo_of a (after cfg later self) = Some v.
Proof.
  destruct (after_fields cfg later self) as (_ & _ & _ & Hi & Hs & _).
  destruct a; simpl; [apply Hi | ].
  destruct (secret_memo self) as [s | ] eqn:E; [ | discriminate].
  intro H. now rewrite (Hs s eq_refl).
Qed.

(** C6: once an access to [ident] or to [secret] has returned a value,
    every later access to it on the instance, after any further use of the
    three accessors and in any state of the process, returns that same
    value and leaves the instance and the process as they are: nothing is
    sent, printed or assigned. *)
Theorem memoised_value_is_stable cfg a self w v self1 w1 :
  read cfg a self w = (Ok v, self1, w1) ->
  forall later w2,
    read cfg a (after cfg later self1) w2 = (Ok v, after cfg later self1, w2).
Proof.
  intros H later w2. apply read_memo, after_memo.
  exact (read_ok_memo _ _ _ _ _ _ _ H).
Qed.

Lemma memoised_value_is_stable_witness :
  let cfg := Scenario.vault [Scenario.token_reply;
                             Scenario.answer 200 (Scenario.quoted "svc-acct")] in
  let self1 := snd (fst (read cfg the_ident Scenario.held Scenario.started)) in
  let w1 := snd (read cfg the_ident Scenario.held Scenario.started) in
  let later := [(Secret, w1); (Otp, w1); (Ident, Scenario.started)] in
  read cfg the_ident (after cfg later self1) w1
  = (Ok (PyStr "svc-acct"), after cfg later self1, w1).
Proof.
  intros cfg self1 w1 later.
  apply (memoised_value_is_stable cfg the_ident Scenario.held Scenario.started
           (PyStr "svc-acct") self1 w1).
  vm_compute. reflexivity.
Defined.

(** ** Construction, and the identity taken from the summary *)

Lemma model_post_init_run cfg self w :
  model_post_init cfg self w =
  match _getSecretSummary cfg (set_s (Some httpx_Client) self)
          (announced (init_uuid self) w) with
  | (Ok sec_summ, s, w') =>
      match getitem_str sec_summ "secretTemplateId" with
      | Ok template =>
          match getitem_str sec_summ "name" with
          | Ok name =>
              (Ok tt, set_sec_name name (set_sec_template template s), w')
          | Raise e => (Raise e, set_sec_template template s, w')
          end
      | Raise e => (Raise e, s, w')
      end
  | (Raise e, s, w') => (Raise e, s, w')
  end.
Proof.
  unfold model_post_init, announced, bind, get_self, print, modify_self, lift.
  destruct (_getSecretSummary cfg _ _) as [[[sec_summ | e] s] w']; [ | reflexivity].
  destruct (getitem_str sec_summ "secretTemplateId"); [ | reflexivity].
  destruct (getitem_str sec_summ "name"); reflexivity.
Qed.

Lemma new_SSCreds_ok cfg id ident_slug secret_slug uuid w self w' :
  new_SSCreds cfg id ident_slug secret_slug uuid w = (Ok self, w') ->
  exists sec_summ s template name,
    _getSecretSummary cfg
      (set_s (Some httpx_Client) (fields id ident_slug secret_slug uuid))
      (announced uuid w) = (Ok sec_summ, s, w') /\
    getitem_str sec_summ "secretTemplateId" = Ok template /\
    getitem_str sec_summ "name" = Ok name /\
    self = set_sec_name name (set_sec_template template s).
Proof.
  unfold new_SSCreds. rewrite model_post_init_run.
  change (init_uuid (fields id ident_slug secret_slug uuid)) with uuid.
  destruct (_getSecretSummary cfg _ (announced uuid w))
    as [[[sec_summ | e] s] w0] eqn:Hsum; [ | discriminate].
  destruct (getitem_str sec_summ "secretTemplateId") as [template | e] eqn:Ht;
    [ | discriminate].
  destruct (getitem_str sec_summ "name") as [name | e] eqn:Hn;
    [ | discriminate].
  intro H. inversion H; subst. exists sec_summ, s, template, name. auto.
Qed.

Lemma new_SSCreds_fresh cfg id ident_slug secret_slug uuid w self w' :
  new_SSCreds cfg id ident_slug secret_slug uuid w = (Ok self, w') ->
  ident_memo self = None /\ secret_memo self = None /\
  secret_id self = id /\ slug_ident self = ident_slug.
Proof.
  intro H. apply new_SSCreds_ok in H as (sec_summ & s & t & n & H & _ & _ & ->).
  pose proof (getSecretSummary_evolves _ _ _ _ _ _ H) as Hev.
  destruct (evolves_same _ _ _ _ Hev) as [E1 E4 _ _ _ E2 E3]. simpl in *.
  repeat apply conj; auto.
Qed.

Lemma new_SSCreds_settled cfg id ident_slug secret_slug uuid w self w' :
  new_SSCreds cfg id ident_slug secret_slug uuid w = (Ok self, w') ->
  settled self.
Proof.
  intro H. destruct (new_SSCreds_fresh _ _ _ _ _ _ _ _ H) as (Hm & _).
  intros v Hv. congruence.
Qed.

Lemma listed_template_name_is_ident self t :
  _sec_template self = PyInt t -> In t SEC_NAME_AS_IDENT ->
  name_is_ident self = true.
Proof.
  unfold name_is_ident. intros -> Hin. apply orb_true_iff. right.
  destruct Hin as [<- | [<- | []]]; reflexivity.
Qed.

Lemma sentinel_slug_name_is_ident self :
  slug_ident self = sentinel -> name_is_ident self = true.
Proof. unfold name_is_ident. intros ->. reflexivity. Qed.

Lemma memoised_by_name self :
  ident_memo self = Some (_sec_name self) -> slug_ident self = sentinel ->
  set_ident_memo (Some (_sec_name self)) (set_slug_ident sentinel self) = self.
Proof.
  destruct self; simpl. intros -> ->. reflexivity.
Qed.

(** [ident] on an instance for which the name is the identity. *)
Lemma ident_by_name cfg self w :
  settled self -> name_is_ident self = true ->
  ident cfg self w =
  (Ok (_sec_name self),
   set_ident_memo (Some (_sec_name self)) (set_slug_ident sentinel self), w).
Proof.
  intros Hset Hn. unfold ident.
  destruct (ident_memo self) as [v | ] eqn:Hm.
  - rewrite (cached_property_hit _ _ _ _ _ _ Hm).
    destruct (Hset v Hm Hn) as [-> Hslug].
    now rewrite (memoised_by_name _ Hm Hslug).
  - rewrite (cached_property_miss _ _ _ _ _ Hm).
    now rewrite (ident_body_by_name _ _ _ Hn).
Qed.

(** C10: on an instance built by the constructor and used through the
    accessors, when the identity field name is the sentinel or the template
    id is one of [SEC_NAME_AS_IDENT], an access to [ident] returns the name
    and leaves the instance with its identity field name set to
    ["$self._sec_name"] and the name memoised; every other field, and the
    whole process, are as before. *)
Theorem ident_by_name_rewrites_the_slug
    cfg id ident_slug secret_slug uuid w0 self0 w1 later :
  new_SSCreds cfg id ident_slug secret_slug uuid w0 = (Ok self0, w1) ->
  let self := after cfg later self0 in
  slug_ident self = sentinel \/
  (exists t, _sec_template self = PyInt t /\ In t SEC_NAME_AS_IDENT) ->
  forall w,
    ident cfg self w =
    (Ok (_sec_name self),
     set_ident_memo (Some (_sec_name self)) (set_slug_ident sentinel self), w).
Proof.
  intros Hnew self Hcond w. apply ident_by_name.
  - apply after_fields. exact (new_SSCreds_settled _ _ _ _ _ _ _ _ Hnew).
  - destruct Hcond as [Hs | (t & Ht & Hin)].
    + exact (sentinel_slug_name_is_ident _ Hs).
    + exact (listed_template_name_is_ident _ _ Ht Hin).
Qed.

Lemma ident_by_name_rewrites_the_slug_witness :
  let cfg := Scenario.vault [Scenario.token_reply;
                             Scenario.answer 200 Scenario.iam_summary_body] in
  ident cfg Scenario.iam_held Scenario.started
  = (Ok (PyStr "svc-iam"),
     set_ident_memo (Some (PyStr "svc-iam"))
       (set_slug_ident sentinel Scenario.iam_held),
     Scenario.started).
Proof.
  intro cfg.
  refine (ident_by_name_rewrites_the_slug cfg 1234 "username" "password"
            "uuid-1" Scenario.started Scenario.iam_held _ [] _ _
            Scenario.started).
  - vm_compute. reflexivity.
  - right. exists 6041. split; [reflexivity | left; reflexivity].
Defined.

(** C5: when the constructor has returned an instance whose template id,
    taken from the summary response, is 6041 or 6047, every access to
    [ident], at any later time, returns the [name] of that summary response
    and leaves the process as it is: no request is sent. *)
Theorem identity_of_listed_template_is_the_name
    cfg id ident_slug secret_slug uuid w0 self0 w1 t :
  new_SSCreds cfg id ident_slug secret_slug uuid w0 = (Ok self0, w1) ->
  _sec_template self0 = PyInt t ->
  In t SEC_NAME_AS_IDENT ->
  (exists sec_summ s,
     _getSecretSummary cfg
       (set_s (Some httpx_Client) (fields id ident_slug secret_slug uuid))
       (announced uuid w0) = (Ok sec_summ, s, w1) /\
     getitem_str sec_summ "secretTemplateId" = Ok (PyInt t) /\
     getitem_str sec_summ "name" = Ok (_sec_name self0)) /\
  forall later w,
    exists self',
      ident cfg (after cfg later self0) w = (Ok (_sec_name self0), self', w).
Proof.
  intros Hnew Ht Hin. split.
  - destruct (new_SSCreds_ok _ _ _ _ _ _ _ _ Hnew)
      as (sec_summ & s & template & name & Hsum & Htpl & Hname & ->).
    simpl in *. subst template. eauto.
  - intros later w.
    destruct (after_fields cfg later self0) as (_ & Et & En & _ & _ & Hset).
    eexists. rewrite <- En. apply ident_by_name.
    + apply Hset. exact (new_SSCreds_settled _ _ _ _ _ _ _ _ Hnew).
    + apply (listed_template_name_is_ident _ t); [congruence | exact Hin].
Qed.

Lemma identity_of_listed_template_is_the_name_witness :
  let cfg := Scenario.vault [Scenario.token_reply;
                             Scenario.answer 200 Scenario.iam_summary_body] in
  exists self',
    ident cfg (after cfg [(Secret, Scenario.started)] Scenario.iam_held)
      Scenario.started
    = (Ok (PyStr "svc-iam"), self', Scenario.started).
Proof.
  intro cfg.
  destruct (identity_of_listed_template_is_the_name cfg 1234 "username"
              "password" "uuid-1" Scenario.started Scenario.iam_held
              (snd (new_SSCreds cfg 1234 "username" "password" "uuid-1"
                      Scenario.started))
              6041) as [_ H].
  - vm_compute. reflexivity.
  - reflexivity.
  - left. reflexivity.
  - exact (H [(Secret, Scenario.started)] Scenario.started).
Defined.

(** ** Token resolution *)

Lemma unchanged_refl self w : unchanged self w self w.
Proof. repeat split. Qed.

Lemma unchanged_trans s1 w1 s2 w2 s3 w3 :
  unchanged s1 w1 s2 w2 -> unchanged s2 w2 s3 w3 -> unchanged s1 w1 s3 w3.
Proof.
  intros (E1 & E2 & E3) (F1 & F2 & F3). repeat split; congruence.
Qed.

Lemma unchanged_send cfg r : respects unchanged (send cfg r).
Proof.
  intros self w res self' w' H. unfold send in H.
  destruct (remote cfg (sent w) r); inversion H; subst; repeat split.
Qed.

(** [_getServerAccessToken] assigns nothing that outlives the call: the
    instance and both module globals are as before. *)
Lemma getServerAccessToken_stores_nothing cfg :
  respects unchanged (_getServerAccessToken cfg).
Proof.
  apply respects_getServerAccessToken.
  - exact unchanged_refl.
  - exact unchanged_trans.
  - intros cfg' r _. apply unchanged_send.
Qed.

(** The provenance after token resolution: ["cached"] when the global
    holds a token, and otherwise whatever it was before. *)
Lemma accessToken_token_type cfg self w res self' w' :
  _accessToken cfg self w = (res, self', w') ->
  token_type self' = match current_access_token w with
                     | Some _ => cached
                     | None => token_type self
                     end.
Proof.
  unfold _accessToken, bind at 1, _cachedAccessToken.
  destruct (current_access_token w) as [t | ].
  - intro H. inversion H; subst. reflexivity.
  - intro H. now destruct (getServerAccessToken_stores_nothing _ _ _ _ _ _ H)
      as (-> & _).
Qed.

(** Token resolution never writes the module globals. *)
Lemma accessToken_keeps_the_globals cfg self w res self' w' :
  _accessToken cfg self w = (res, self', w') ->
  current_access_token w' = current_access_token w /\
  current_refresh_token w' = current_refresh_token w.
Proof. intro H. destruct (accessToken_evolves _ _ _ _ _ _ H). auto. Qed.

(** C2 at the failing input: in a process that starts with no token, the
    first resolution obtains T1 by a password grant and leaves both module
    globals empty; the second resolution, on another instance, makes the
    password grant again. *)
Theorem second_token_resolution_asks_the_server_again :
  let cfg := Scenario.vault [Scenario.token_reply; Scenario.token_reply] in
  let '(token1, _, w1) := _accessToken cfg Scenario.held Scenario.started in
  let '(token2, _, w2) := _accessToken cfg Scenario.iam_held w1 in
  token1 = Ok (PyStr "T1") /\
  current_access_token w1 = None /\
  current_refresh_token w1 = None /\
  token2 = Ok (PyStr "T1") /\
  map req_url (posts w2) = ["https://vault.example/oauth2/token";
                            "https://vault.example/oauth2/token"].
Proof. vm_compute. repeat split. Qed.

Lemma keeps_cached_requests :
  (forall self w, keeps_cached self w self w) /\
  (forall s1 w1 s2 w2 s3 w3,
     keeps_cached s1 w1 s2 w2 -> keeps_cached s2 w2 s3 w3 ->
     keeps_cached s1 w1 s3 w3) /\
  (forall cfg r, respects keeps_cached (send cfg r)) /\
  respects keeps_cached (modify_self (set_token_type cached)) /\
  (forall line, respects keeps_cached (print line)).
Proof.
  unfold keeps_cached. repeat apply conj; auto.
  - intros cfg r self w res self' w' H. unfold send in H.
    destruct (remote cfg (sent w) r); inversion H; subst; auto.
  - intros self w res self' w' H. inversion H; subst. auto.
  - intros line self w res self' w' H. inversion H; subst. auto.
Qed.

Lemma getSlug_keeps_cached cfg slug : respects keeps_cached (_getSlug cfg slug).
Proof.
  destruct keeps_cached_requests as (H1 & H2 & H3 & H4 & H5).
  now apply respects_getSlug.
Qed.

Lemma access_keeps_cached cfg a self w :
  token_type self = cached -> token_type (fst (access cfg a self w)) = cached.
Proof.
  destruct keeps_cached_requests as (H1 & H2 & H3 & H4 & H5).
  intro Hc. destruct a; simpl.
  - unfold ident. destruct (ident_memo self) as [v0 | ] eqn:Hm.
    + now rewrite (cached_property_hit _ _ _ _ _ _ Hm).
    + rewrite (cached_property_miss _ _ _ _ _ Hm).
      destruct (name_is_ident self) eqn:Hn.
      * now rewrite (ident_body_by_name _ _ _ Hn).
      * rewrite (ident_body_by_slug _ _ _ Hn).
        destruct (_getSlug cfg (slug_ident self) self w)
          as [[[v | e] s'] w'] eqn:Hg;
          exact (getSlug_keeps_cached _ _ _ _ _ _ _ Hg Hc).
  - unfold secret. destruct (secret_memo self) as [v0 | ] eqn:Hm.
    + now rewrite (cached_property_hit _ _ _ _ _ _ Hm).
    + rewrite (cached_property_miss _ _ _ _ _ Hm), secret_body_run.
      destruct (_getSlug cfg (slug_secret self) self w)
        as [[[v | e] s'] w'] eqn:Hg;
        exact (getSlug_keeps_cached _ _ _ _ _ _ _ Hg Hc).
  - destruct (otp cfg self w) as [[r s'] w'] eqn:Ho.
    exact (respects_otp keeps_cached H1 H2 H3 H4 H5 _ _ _ _ _ _ Ho Hc).
Qed.

(** No instance ever carries the provenance ["server"]: it is ["cached"]
    from the constructor on, whatever the accessors did. *)
Lemma provenance_is_always_cached
    cfg id ident_slug secret_slug uuid w0 self0 w1 later :
  new_SSCreds cfg id ident_slug secret_slug uuid w0 = (Ok self0, w1) ->
  token_type (after cfg later self0) = cached.
Proof.
  destruct keeps_cached_requests as (H1 & H2 & H3 & H4 & H5).
  intro Hnew.
  assert (H0 : token_type self0 = cached).
  { destruct (new_SSCreds_ok _ _ _ _ _ _ _ _ Hnew)
      as (sec_summ & s & t & n & Hsum & _ & _ & ->).
    exact (respects_getSecretSummary keeps_cached H1 H2 H3 H4 H5
             _ _ _ _ _ _ Hsum eq_refl). }
  clear Hnew. revert self0 H0.
  induction later as [ | [a w] rest IH]; intros self0 H0; simpl; auto.
  apply IH, access_keeps_cached, H0.
Qed.

(** C8 at the failing input: the token comes from the server by a password
    grant, and the provenance on the instance reads ["cached"]. *)
Theorem server_token_is_marked_cached :
  let cfg := Scenario.vault [Scenario.token_reply] in
  let '(token, self', w') := _accessToken cfg Scenario.held Scenario.started in
  token = Ok (PyStr "T1") /\
  map req_url (posts w') = ["https://vault.example/oauth2/token"] /\
  token_type self' = cached.
Proof. vm_compute. repeat split. Qed.

(** ** The one-time password *)

(** [otp] never returns: what [_getTOTP] hands back is a string, whose
    first character cannot be subscripted with ["code"]. *)
Lemma otp_never_returns cfg self w :
  exists e self' w', otp cfg self w = (Raise e, self', w').
Proof.
  unfold otp, bind, lift.
  destruct (_getTOTP cfg self w) as [[[v | e] self'] w']; [ | eauto].
  destruct v; simpl; eauto.
Qed.

(** C4 at the failing input: the server answers the GET with a list whose
    first element has the code 123456, and [otp] raises a [TypeError]. *)
Theorem otp_raises_on_a_well_formed_reply :
  let cfg := Scenario.vault [Scenario.token_reply;
                             Scenario.answer 200 Scenario.otp_body] in
  let '(code, _, w') := otp cfg Scenario.held Scenario.started in
  parse_json cfg Scenario.otp_body
  = Some (PyList [PyDict [("code", PyStr "123456");
                          ("durationSeconds", PyInt 30);
                          ("remainingSeconds", PyInt 12)]]) /\
  map req_url (gets w')
  = ["https://vault.example/api/v1/one-time-password-code/{id}"] /\
  code = Raise TypeError.
Proof. vm_compute. repeat split. Qed.

(** ** The field request *)

(** Every GET that [_getSlug] sends goes to the base URL followed by the
    template as it is written, whatever the identifier and the slug; they
    are the request's [params]. *)
Lemma getSlug_gets cfg slug self w res self' w' :
  _getSlug cfg slug self w = (res, self', w') ->
  exists l,
    gets w' = (gets w ++ l)%list /\
    Forall (get_request_of cfg "api/v1/secrets/{id}/fields/{slug}"
              [("id", PyInt (secret_id self)); ("slug", PyStr slug)]) l.
Proof.
  unfold _getSlug, bind at 1, get_self. intro H.
  apply bind_run in H as [(e & H & _) | (resp & s1 & w1 & H & Hrest)].
  - destruct (get_gets _ _ _ _ _ _ _ _ H) as (l & E & _ & Hl). eauto.
  - destruct (get_gets _ _ _ _ _ _ _ _ H) as (l & E & _ & Hl).
    exists l. split; [ | exact Hl]. rewrite <- E.
    unfold bind, raise_for_status, ret, raise in Hrest.
    destruct (is_success resp); inversion Hrest; reflexivity.
Qed.

(** C9 at the failing input: for secret 1234 and the slug "username" the
    GET goes to the URL with [{id}] and [{slug}] still in it. *)
Theorem field_request_url_keeps_the_placeholders :
  let cfg := Scenario.vault [Scenario.token_reply;
                             Scenario.answer 200 (Scenario.quoted "svc-acct")] in
  let '(value, _, w') := _getSlug cfg "username" Scenario.held Scenario.started in
  value = Ok "svc-acct" /\
  map (fun r => (req_url r, req_params r)) (gets w')
  = [("https://vault.example/api/v1/secrets/{id}/fields/{slug}",
      [("id", PyInt 1234); ("slug", PyStr "username")])].
Proof. vm_compute. repeat split. Qed.

(** * Further properties of the client *)

(** ** What [get] hands back *)

Lemma sendRequest_ok cfg url params self w r self' w' :
  sendRequest cfg url params self w = (Ok r, self', w') ->
  session_get cfg url params self w = (Ok r, self', w') /\
  is_success r = true /\
  contains access_denied_marker (text r) = false.
Proof.
  intro H.
  destruct (session_get cfg url params self w) as [[[r0 | e] s0] w0] eqn:Hs.
  - rewrite (sendRequest_answered _ _ _ _ _ _ _ _ Hs) in H.
    inversion H; subst.
    destruct (checked_ok _ _ H1) as (-> & Hok & Hd). auto.
  - destruct (_s self) as [c | ] eqn:Hc.
    + rewrite (sendRequest_unanswered _ _ _ _ _ _ _ _ _ Hc Hs) in H.
      discriminate.
    + unfold sendRequest, bind at 1, get_self in H. rewrite Hc in H.
      discriminate.
Qed.

Lemma get_ok_is_success cfg url params self w r self' w' :
  get cfg url params self w = (Ok r, self', w') -> is_success r = true.
Proof.
  unfold get. intro H.
  apply bind_run in H as [(e & _ & H) | (r1 & s1 & w1 & H1 & H)];
    [discriminate | ].
  apply sendRequest_ok in H1 as (_ & Hok1 & _).
  destruct (contains expired_marker (text r1)); [ | inversion H; subst; exact Hok1].
  apply bind_run in H as [(e & _ & H) | (u & s2 & w2 & _ & H)];
    [discriminate | ].
  apply bind_run in H as [(e & _ & H) | (r2 & s3 & w3 & H2 & H)];
    [discriminate | ].
  apply sendRequest_ok in H2 as (_ & Hok2 & _).
  apply bind_run in H as [(e & _ & H) | (u' & s4 & w4 & _ & H)];
    [discriminate | ].
  inversion H; subst. exact Hok2.
Qed.

(** X1: Whatever [get] returns is a response the server gave to one of its
    GETs, with a 2xx status and without the access-denied marker. *)
Theorem get_returns_only_checked_responses
    cfg url params self w r self' w' :
  get cfg url params self w = (Ok r, self', w') ->
  answered cfg url params self w r self' w' /\
  is_success r = true /\
  contains access_denied_marker (text r) = false.
Proof.
  intro H. pose proof H as H0. unfold get in H0.
  apply bind_run in H0 as [(e & _ & H0) | (r1 & s1 & w1 & H1 & _)];
    [discriminate | ].
  apply sendRequest_ok in H1 as (H1 & Hok1 & Hd1).
  rewrite (get_run _ _ _ _ _ _ _ _ H1) in H. unfold checked in H.
  rewrite Hok1, Hd1 in H.
  destruct (contains expired_marker (text r1)) eqn:He.
  - destruct (session_get cfg url params s1 (told_to_repeat w1))
      as [[[r2 | e] s2] w2] eqn:H2; [ | discriminate].
    inversion H; subst.
    destruct (checked_ok _ _ H3) as (-> & Hok2 & Hd2).
    repeat apply conj; auto.
    exact (answered_again _ _ _ _ _ _ _ _ _ _ _ H1 Hok1 Hd1 He H2).
  - inversion H; subst. repeat apply conj; auto.
    exact (answered_first _ _ _ _ _ _ _ _ H1).
Qed.

Lemma get_returns_only_checked_responses_witness :
  let cfg := Scenario.vault [Scenario.token_reply;
                             Scenario.answer 204 (Scenario.quoted "svc-acct")] in
  is_success (mkResponse 204 (Scenario.quoted "svc-acct")) = true /\
  contains access_denied_marker (Scenario.quoted "svc-acct") = false.
Proof.
  intro cfg.
  destruct (get cfg Scenario.field_url [] Scenario.held Scenario.started)
    as [[res s'] w'] eqn:H.
  assert (E : res = Ok (mkResponse 204 (Scenario.quoted "svc-acct")))
    by (vm_compute in H; inversion H; reflexivity).
  subst res.
  exact (proj2 (get_returns_only_checked_responses _ _ _ _ _ _ _ _ H)).
Defined.

(** ** What is sent, and in which order *)

Lemma same_world_refl self w : same_world self w self w.
Proof. reflexivity. Qed.

Lemma same_world_trans s1 w1 s2 w2 s3 w3 :
  same_world s1 w1 s2 w2 -> same_world s2 w2 s3 w3 -> same_world s1 w1 s3 w3.
Proof. unfold same_world. congruence. Qed.

Lemma getServerAccessToken_sent cfg self w res self' w' :
  _getServerAccessToken cfg self w = (res, self', w') ->
  sent w' = sent w \/
  exists p, grant_request cfg p /\ sent w' = (sent w ++ [p])%list.
Proof.
  unfold _getServerAccessToken. cbv zeta. intro H.
  apply bind_run in H as [(e & H & _) | (c & s1 & w1 & H1 & H)].
  { left. now rewrite (respects_session same_world same_world_refl
                         same_world_trans _ _ _ _ _ _ H). }
  pose proof (respects_session same_world same_world_refl same_world_trans
                _ _ _ _ _ _ H1) as E1. unfold same_world in E1. subst w1.
  clear H1.
  apply bind_run in H as [(e & H & _) | (u & s2 & w2 & H2 & H)].
  { left. now rewrite (respects_env_concat same_world same_world_refl
                         _ _ _ _ _ _ _ H). }
  pose proof (respects_env_concat same_world same_world_refl
                _ _ _ _ _ _ _ H2) as E2. unfold same_world in E2. subst w2.
  unfold env_concat in H2. destruct (SSAPP_BASEURL cfg) as [base | ] eqn:Hb;
    inversion H2; subst. clear H2.
  right. eexists. split; [exists base; split; [exact Hb | reflexivity] | ].
  apply bind_run in H as [(e & H & _) | (resp & s3 & w3 & H3 & H)].
  { unfold send in H. destruct (remote cfg _ _); inversion H; reflexivity. }
  assert (E3 : sent w3 = (sent w ++ [mkRequest POST (base ++ "oauth2/token") [] []
             [("grant_type", PyStr "password");
              ("username", of_env (SSAPP_USERNAME cfg));
              ("password", of_env (SSAPP_PASSWORD cfg))]])%list)
    by (unfold send in H3; destruct (remote cfg _ _); inversion H3; reflexivity).
  assert (Hrest : same_world s3 w3 self' w').
  { revert H. generalize s3 w3 res self' w'.
    change (respects same_world
              (raise_for_status resp ;;;
               resp0 <- json cfg resp ;;
               oauth_access_token <- lift (getitem_str resp0 "access_token") ;;
               oauth_token_type <- lift (getitem_str resp0 "token_type") ;;
               oauth_expires_in <- lift (getitem_str resp0 "expires_in") ;;
               oauth_refresh_token <- lift (getitem_str resp0 "refresh_token") ;;
               ret oauth_access_token)).
    pose proof same_world_refl. pose proof same_world_trans. respects_tac. }
  unfold same_world in Hrest. subst w'. exact E3.
Qed.

Lemma getHeaders_sent cfg self w res self' w' :
  _getHeaders cfg self w = (res, self', w') ->
  (sent w' = sent w \/
   exists p, grant_request cfg p /\ sent w' = (sent w ++ [p])%list) /\
  (forall h, res = Ok h -> exists t, h = bearer t) /\
  (forall t, current_access_token w = Some t ->
             sent w' = sent w /\ res = Ok (bearer t)).
Proof.
  unfold _getHeaders, _accessToken, bind at 1, bind at 1, _cachedAccessToken.
  destruct (current_access_token w) as [t0 | ].
  - intro H. inversion H; subst. repeat apply conj; auto.
    + intros h E. inversion E. exists t0. reflexivity.
    + intros t E. inversion E. split; reflexivity.
  - destruct (_getServerAccessToken cfg self w) as [[[v | e] s1] w1] eqn:Hg;
      intro H; pose proof (getServerAccessToken_sent _ _ _ _ _ _ Hg) as Hs.
    + assert (w' = w1) as -> by (destruct v; inversion H; reflexivity).
      repeat apply conj; auto; [ | discriminate].
      intros h ->. destruct v; inversion H. eexists. reflexivity.
    + inversion H; subst. repeat apply conj; auto; discriminate.
Qed.



(** [get] is at most two runs of [session_get], the second in the process
    the first one left. *)
Lemma get_two_sends cfg url params
    (I : world -> Prop) (P : list request -> Prop) :
  P [] ->
  (forall w, I w -> I (told_to_repeat w)) ->
  (forall self w res self' w',
     I w -> session_get cfg url params self w = (res, self', w') ->
     I w' /\ exists l, sent w' = (sent w ++ l)%list /\ P l) ->
  forall self w res self' w',
    I w -> get cfg url params self w = (res, self', w') ->
    exists l1 l2, sent w' = (sent w ++ l1 ++ l2)%list /\ P l1 /\ P l2.
Proof.
  intros Pnil Itold Hsend self w res self' w' Hw H.
  destruct (session_get cfg url params self w) as [[res1 self1] w1] eqn:H1.
  destruct (Hsend _ _ _ _ _ Hw H1) as (Hw1 & l1 & E1 & Hl1).
  assert (Once : (res, self', w') = (res, self1, w1) ->
                 exists l1 l2, sent w' = (sent w ++ l1 ++ l2)%list /\ P l1 /\ P l2).
  { intro E. inversion E; subst. exists l1, []. rewrite app_nil_r. auto. }
  destruct res1 as [r1 | e].
  - rewrite (get_run _ _ _ _ _ _ _ _ H1) in H.
    destruct (checked r1) as [r | e];
      [ | inversion H; subst; apply Once; reflexivity].
    destruct (contains expired_marker (text r));
      [ | inversion H; subst; apply Once; reflexivity].
    destruct (session_get cfg url params self1 (told_to_repeat w1))
      as [[res2 self2] w2] eqn:H2.
    destruct (Hsend _ _ _ _ _ (Itold _ Hw1) H2) as (_ & l2 & E2 & Hl2).
    assert (w' = w2) as -> by (destruct res2; inversion H; reflexivity).
    exists l1, l2. simpl in E2. rewrite E2, E1, app_assoc. auto.
  - destruct (_s self) as [c | ] eqn:Hc.
    + unfold get in H.
      rewrite (bind_raise _ _ _ _ _ _ _
                 (sendRequest_unanswered _ _ _ _ _ _ _ _ _ Hc H1)) in H.
      inversion H; subst. apply Once. reflexivity.
    + unfold get, sendRequest, bind at 1, bind at 1, get_self in H.
      rewrite Hc in H. unfold bind, raise in H. inversion H; subst.
      exists [], []. rewrite !app_nil_r. auto.
Qed.


Lemma session_get_with_cached_token cfg url params t self w res self' w' :
  current_access_token w = Some t ->
  session_get cfg url params self w = (res, self', w') ->
  current_access_token w' = Some t /\
  exists l,
    sent w' = (sent w ++ l)%list /\
    (length l <= 1)%nat /\
    Forall (fun r => is_GET r = true /\ req_headers r = bearer t) l.
Proof.
  intros Ht H. split.
  { destruct (session_get_evolves _ _ _ _ _ _ _ _ H) as [_ E _ _]. congruence. }
  unfold session_get in H.
  apply bind_run in H as [(e & H & _) | (c & s1 & w1 & H1 & H)].
  { rewrite (respects_session same_world same_world_refl same_world_trans
               _ _ _ _ _ _ H).
    exists []. rewrite app_nil_r. simpl. auto. }
  pose proof (respects_session same_world same_world_refl same_world_trans
                _ _ _ _ _ _ H1) as E1. unfold same_world in E1. subst w1.
  apply bind_run in H as [(e & H & _) | (h & s2 & w2 & H2 & H)].
  { destruct (getHeaders_sent _ _ _ _ _ _ H) as (_ & _ & Hc).
    destruct (Hc t Ht) as [E _]. exists []. rewrite app_nil_r. simpl. auto. }
  destruct (getHeaders_sent _ _ _ _ _ _ H2) as (_ & _ & Hc).
  destruct (Hc t Ht) as [E Eh]. inversion Eh; subst h.
  unfold bind, env_concat in H.
  destruct (SSAPP_BASEURL cfg) as [base | ].
  - unfold ret, send in H. exists [mkRequest GET (base ++ url) (bearer t) params []].
    repeat apply conj; simpl; auto.
    rewrite <- E. destruct (remote cfg _ _); inversion H; reflexivity.
  - inversion H; subst. exists []. rewrite app_nil_r. simpl. auto.
Qed.

(** X3: With a token in the module global, [get] asks for no token: it sends
    GETs only, two at most, and each of them, the repeated one included,
    carries that token; the global still holds it afterwards. *)
Theorem get_with_cached_token cfg url params t self w res self' w' :
  current_access_token w = Some t ->
  get cfg url params self w = (res, self', w') ->
  current_access_token w' = Some t /\
  exists l,
    sent w' = (sent w ++ l)%list /\
    (length l <= 2)%nat /\
    Forall (fun r => is_GET r = true /\ req_headers r = bearer t) l.
Proof.
  intros Ht H. split.
  { destruct (get_evolves _ _ _ _ _ _ _ _ H) as [_ E _ _]. congruence. }
  destruct (get_two_sends cfg url params
              (fun w => current_access_token w = Some t)
              (fun l => (length l <= 1)%nat /\
                        Forall (fun r => is_GET r = true /\
                                         req_headers r = bearer t) l))
    with (self := self) (w := w) (res := res) (self' := self') (w' := w')
    as (l1 & l2 & E & [L1 F1] & [L2 F2]); auto.
  - intros s0 w0 r0 s1 w1 H0 H1.
    destruct (session_get_with_cached_token _ _ _ _ _ _ _ _ _ H0 H1)
      as (Ht1 & l & El & Ll & Fl). eauto.
  - exists (l1 ++ l2)%list. repeat apply conj; auto.
    + rewrite length_app. lia.
    + apply Forall_app. auto.
Qed.

Lemma get_with_cached_token_witness :
  let cfg := Scenario.vault [Scenario.answer 200 Scenario.expired_body;
                             Scenario.answer 200 (Scenario.quoted "svc-acct")] in
  let '(_, _, w') :=
    get cfg Scenario.field_url [] Scenario.held Scenario.with_token in
  current_access_token w' = Some "stale" /\
  exists l,
    sent w' = (sent Scenario.with_token ++ l)%list /\
    (length l <= 2)%nat /\
    Forall (fun r => is_GET r = true /\ req_headers r = bearer "stale") l.
Proof.
  intro cfg.
  destruct (get cfg Scenario.field_url [] Scenario.held Scenario.with_token)
    as [[res self'] w'] eqn:H.
  exact (get_with_cached_token cfg Scenario.field_url [] "stale" Scenario.held
           Scenario.with_token res self' w' eq_refl H).
Defined.

(** ** A missing base URL *)

Lemma session_get_without_base cfg url params self w c :
  SSAPP_BASEURL cfg = None -> _s self = Some c ->
  exists self', session_get cfg url params self w = (Raise TypeError, self', w).
Proof.
  intros Hb Hc.
  unfold session_get, session, _getHeaders, _accessToken, _cachedAccessToken,
    _getServerAccessToken, session, env_concat, bind, get_self, modify_self,
    ret, raise.
  rewrite Hc, Hb. destruct (current_access_token w); simpl;
    rewrite ?Hc, ?Hb; eauto.
Qed.

(** X5: When [SSAPP_BASEURL] is not set, nothing is checked up front: the
    constructor prints its line and fails with a [TypeError] before any
    request goes out, and so does every [get] on an instance that has a
    session. *)
Theorem missing_base_url_is_a_TypeError cfg :
  SSAPP_BASEURL cfg = None ->
  (forall id ident_slug secret_slug uuid w,
     new_SSCreds cfg id ident_slug secret_slug uuid w
     = (Raise TypeError, announced uuid w)) /\
  (forall url params self w c,
     _s self = Some c ->
     exists self', get cfg url params self w = (Raise TypeError, self', w)).
Proof.
  intro Hb.
  assert (Hget : forall url params self w c, _s self = Some c ->
            exists self', get cfg url params self w = (Raise TypeError, self', w)).
  { intros url params self w c Hc.
    destruct (session_get_without_base cfg url params self w c Hb Hc)
      as [self' H].
    exists self'. unfold get.
    now rewrite (bind_raise _ _ _ _ _ _ _
                   (sendRequest_unanswered _ _ _ _ _ _ _ _ _ Hc H)). }
  split; [ | exact Hget].
  intros id ident_slug secret_slug uuid w.
  unfold new_SSCreds. rewrite model_post_init_run.
  change (init_uuid (fields id ident_slug secret_slug uuid)) with uuid.
  destruct (Hget "api/v1/secrets/{id}/summary" [("id", PyInt id)]
              (set_s (Some httpx_Client)
                 (fields id ident_slug secret_slug uuid))
              (announced uuid w) httpx_Client eq_refl) as [self' H].
  unfold _getSecretSummary, bind at 1, get_self.
  change (secret_id (set_s (Some httpx_Client)
                       (fields id ident_slug secret_slug uuid))) with id.
  now rewrite (bind_raise _ _ _ _ _ _ _ H).
Qed.

Lemma missing_base_url_is_a_TypeError_witness :
  let cfg := mkSetting (Some "svc-user") (Some "svc-pass") None
               (Scenario.scripted [Scenario.token_reply]) Scenario.parse in
  new_SSCreds cfg 1234 "username" "password" "uuid-1" Scenario.started
  = (Raise TypeError, announced "uuid-1" Scenario.started).
Proof.
  intro cfg.
  exact (proj1 (missing_base_url_is_a_TypeError cfg eq_refl)
           1234 "username" "password" "uuid-1" Scenario.started).
Defined.

(** ** [post] *)

Lemma one_grant_is_posts cfg self w res self' w' :
  _getHeaders cfg self w = (res, self', w') ->
  exists l, sent w' = (sent w ++ l)%list /\ (length l <= 1)%nat /\
            Forall (fun r => is_POST r = true) l.
Proof.
  intro H. destruct (getHeaders_sent _ _ _ _ _ _ H) as ([E | (p & Hp & E)] & _).
  - exists []. rewrite app_nil_r. simpl. auto.
  - exists [p]. simpl. repeat apply conj; auto.
    destruct Hp as (base & _ & ->). auto.
Qed.

Lemma getitem_str_error v k e :
  getitem_str v k = Raise e -> e = TypeError \/ e = KeyError k.
Proof.
  destruct v; simpl; try solve [intro H; inversion H; auto].
  destruct (dict_get d k); intro H; inversion H; auto.
Qed.

(** Token resolution fails with the status error of the password grant,
    never with the access-denied error. *)
Lemma getHeaders_errors cfg self w e self' w' :
  _getHeaders cfg self w = (Raise e, self', w') ->
  (forall r, e = HTTPStatusError r -> is_success r = false) /\
  (forall msg, e <> RuntimeError msg).
Proof.
  assert (Hkey : forall v k e0, getitem_str v k = Raise e0 ->
            (forall r, e0 = HTTPStatusError r -> is_success r = false) /\
            (forall msg, e0 <> RuntimeError msg)).
  { intros v k e0 Hk.
    destruct (getitem_str_error _ _ _ Hk) as [-> | ->]; split; discriminate. }
  unfold _getHeaders, _accessToken, _cachedAccessToken,
    _getServerAccessToken, session, env_concat, send, raise_for_status, json,
    lift, bind, get_self, modify_self, ret, raise.
  destruct (current_access_token w); [discriminate | ].
  destruct (_s self); [ | intro H; inversion H; split; discriminate].
  destruct (SSAPP_BASEURL cfg); [ | intro H; inversion H; split; discriminate].
  simpl. destruct (remote cfg _ _) as [r0 | ];
    [ | intro H; inversion H; split; discriminate].
  destruct (is_success r0) eqn:Hok.
  2:{ intro H; inversion H; subst. split; [ | discriminate].
      intros r E. inversion E; subst. exact Hok. }
  destruct (parse_json cfg (text r0)) as [v | ];
    [ | intro H; inversion H; split; discriminate].
  destruct (getitem_str v "access_token") as [a | e0] eqn:Ha;
    [ | intro H; inversion H; subst; exact (Hkey _ _ _ Ha)].
  destruct (getitem_str v "token_type") as [b | e0] eqn:Hb;
    [ | intro H; inversion H; subst; exact (Hkey _ _ _ Hb)].
  destruct (getitem_str v "expires_in") as [c0 | e0] eqn:Hc;
    [ | intro H; inversion H; subst; exact (Hkey _ _ _ Hc)].
  destruct (getitem_str v "refresh_token") as [d0 | e0] eqn:Hd;
    [ | intro H; inversion H; subst; exact (Hkey _ _ _ Hd)].
  destruct a; intro H; inversion H; split; discriminate.
Qed.

(** X6: [post] is a single attempt: it sends POSTs only (the password grant,
    when a token had to be fetched, then the request itself), never looks
    into the body (it never raises the access-denied error) and returns
    nothing but a response with a 2xx status; a status error carries a
    response with another status. *)
Theorem post_is_one_attempt cfg url data params self w :
  let '(res, _, w') := post cfg url data params self w in
  (exists l, sent w' = (sent w ++ l)%list /\ (length l <= 2)%nat /\
             Forall (fun r => is_POST r = true) l) /\
  (forall r, res = Ok r -> is_success r = true) /\
  (forall r, res = Raise (HTTPStatusError r) -> is_success r = false) /\
  (forall msg, res <> Raise (RuntimeError msg)).
Proof.
  destruct (post cfg url data params self w) as [[res self'] w'] eqn:H.
  unfold post in H.
  apply bind_run in H as [(e & H & ->) | (c & s1 & w1 & H1 & H)].
  { unfold session, bind, get_self in H.
    destruct (_s self); inversion H; subst.
    repeat apply conj; try discriminate.
    exists []. rewrite app_nil_r. simpl. auto. }
  pose proof (respects_session same_world same_world_refl same_world_trans
                _ _ _ _ _ _ H1) as E1. unfold same_world in E1. subst w1.
  clear H1.
  apply bind_run in H as [(e & H & ->) | (h & s2 & w2 & H2 & H)].
  { destruct (one_grant_is_posts _ _ _ _ _ _ H) as (l & E & Hl & Fl).
    destruct (getHeaders_errors _ _ _ _ _ _ H) as [Hst Hrt].
    repeat apply conj; try discriminate.
    - exists l. repeat apply conj; auto.
    - intros r E'. inversion E'; subst. exact (Hst r eq_refl).
    - intros msg E'. inversion E'; subst. exact (Hrt msg eq_refl). }
  destruct (one_grant_is_posts _ _ _ _ _ _ H2) as (l & E & Hl & Fl).
  unfold bind at 1, env_concat in H.
  destruct (SSAPP_BASEURL cfg) as [base | ].
  - unfold ret at 1, bind at 1, send in H.
    set (q := mkRequest POST (base ++ url) h params data) in *.
    assert (Traffic : forall w3, sent w3 = (sent w2 ++ [q])%list ->
              exists l0, sent w3 = (sent w ++ l0)%list /\ (length l0 <= 2)%nat /\
                         Forall (fun r => is_POST r = true) l0).
    { intros w3 E3. exists (l ++ [q])%list. repeat apply conj.
      - rewrite E3, E, app_assoc. reflexivity.
      - rewrite length_app. simpl. lia.
      - apply Forall_app. split; auto. }
    destruct (remote cfg (sent w2) q) as [r | ].
    + unfold bind, raise_for_status, ret, raise in H.
      destruct (is_success r) eqn:Hok; inversion H; subst;
        (repeat apply conj; [apply Traffic; reflexivity | | | ]);
        try discriminate; intros r' E'; inversion E'; subst; assumption.
    + inversion H; subst.
      repeat apply conj; [apply Traffic; reflexivity | | | ]; discriminate.
  - inversion H; subst. repeat apply conj; try discriminate.
    exists l. repeat apply conj; auto.
Qed.

(** ** The value of a field *)

Lemma lstrip_starts c s : starts_with c (lstrip c s) = false.
Proof.
  induction s as [ | a rest IH]; simpl; [reflexivity | ].
  destruct (Ascii.eqb a c) eqn:E; [exact IH | simpl; exact E].
Qed.

Lemma rstrip_ends c s : ends_with c (rstrip c s) = false.
Proof.
  induction s as [ | a rest IH]; simpl; [reflexivity | ].
  destruct (rstrip c rest) as [ | b rest'] eqn:E.
  - destruct (Ascii.eqb a c) eqn:Ea; simpl; [reflexivity | exact Ea].
  - exact IH.
Qed.

Lemma rstrip_starts c s :
  starts_with c s = false -> starts_with c (rstrip c s) = false.
Proof.
  destruct s as [ | a rest]; simpl; [reflexivity | ]. intro Ha.
  destruct (rstrip c rest); [rewrite Ha | ]; simpl; exact Ha.
Qed.

Lemma strip_has_no_quote_at_either_end c s :
  starts_with c (strip c s) = false /\ ends_with c (strip c s) = false.
Proof.
  unfold strip. split.
  - apply rstrip_starts, lstrip_starts.
  - apply rstrip_ends.
Qed.

Lemma rstrip_snoc c s : rstrip c (s ++ String c EmptyString) = rstrip c s.
Proof.
  induction s as [ | a rest IH]; simpl.
  - now rewrite Ascii.eqb_refl.
  - now rewrite IH.
Qed.

Lemma rstrip_id c s : ends_with c s = false -> rstrip c s = s.
Proof.
  induction s as [ | a rest IH]; simpl; [reflexivity | ].
  destruct rest as [ | b rest'].
  - simpl. now intros ->.
  - intro H. rewrite (IH H). reflexivity.
Qed.

Lemma strip_quoted s :
  starts_with quote s = false -> ends_with quote s = false ->
  strip quote (Scenario.quoted s) = s.
Proof.
  intros Hs He. unfold strip, Scenario.quoted.
  assert (El : lstrip quote (String quote (s ++ String quote ""))
               = (s ++ String quote "")%string \/ s = EmptyString).
  { destruct s as [ | a rest]; [right; reflexivity | left].
    simpl in Hs. cbn [lstrip append]. rewrite Ascii.eqb_refl.
    cbn [lstrip]. now rewrite Hs. }
  destruct El as [-> | ->]; [ | reflexivity].
  rewrite rstrip_snoc. exact (rstrip_id _ _ He).
Qed.

Lemma getSlug_run cfg slug self w :
  _getSlug cfg slug self w =
  match get cfg "api/v1/secrets/{id}/fields/{slug}"
          [("id", PyInt (secret_id self)); ("slug", PyStr slug)] self w with
  | (Ok r, self', w') => (Ok (strip quote (text r)), self', w')
  | (Raise e, self', w') => (Raise e, self', w')
  end.
Proof.
  unfold _getSlug, bind at 1, get_self.
  destruct (get cfg _ _ self w) as [[[r | e] self'] w'] eqn:H.
  - rewrite (bind_ok _ _ _ _ _ _ _ H).
    unfold bind, raise_for_status, ret.
    now rewrite (get_ok_is_success _ _ _ _ _ _ _ _ H).
  - now rewrite (bind_raise _ _ _ _ _ _ _ H).
Qed.

(** X7: A value [_getSlug] returns never begins or ends with a double quote:
    it is the body of the response [get] returned with every double quote
    at either end taken off. *)
Theorem field_value_has_no_quote_at_either_end
    cfg slug self w v self' w' :
  _getSlug cfg slug self w = (Ok v, self', w') ->
  starts_with quote v = false /\ ends_with quote v = false /\
  exists r,
    get cfg "api/v1/secrets/{id}/fields/{slug}"
      [("id", PyInt (secret_id self)); ("slug", PyStr slug)] self w
    = (Ok r, self', w') /\
    v = strip quote (text r).
Proof.
  rewrite getSlug_run.
  destruct (get cfg _ _ self w) as [[[r | e] s1] w1]; [ | discriminate].
  intro H. inversion H; subst.
  destruct (strip_has_no_quote_at_either_end quote (text r)). eauto.
Qed.

Lemma field_value_has_no_quote_at_either_end_witness :
  let cfg := Scenario.vault
               [Scenario.token_reply;
                Scenario.answer 200
                  (Scenario.quoted (Scenario.quoted "P@ss" ++ "w0rd"))] in
  let v := ("P@ss" ++ String quote "w0rd")%string in
  starts_with quote v = false /\ ends_with quote v = false.
Proof.
  intros cfg v.
  destruct (_getSlug cfg "password" Scenario.held Scenario.started)
    as [[res s'] w'] eqn:H.
  assert (E : res = Ok v) by (vm_compute in H; inversion H; reflexivity).
  subst res.
  destruct (field_value_has_no_quote_at_either_end _ _ _ _ _ _ _ H)
    as (Hs & He & _).
  split; assumption.
Defined.

(** X8: When the body [get] returns is a value between double quotes, and
    the value itself has no double quote at either end, [_getSlug] returns
    the value. *)
Theorem field_value_of_a_quoted_body cfg slug self w r self' w' s :
  get cfg "api/v1/secrets/{id}/fields/{slug}"
    [("id", PyInt (secret_id self)); ("slug", PyStr slug)] self w
  = (Ok r, self', w') ->
  text r = Scenario.quoted s ->
  starts_with quote s = false ->
  ends_with quote s = false ->
  _getSlug cfg slug self w = (Ok s, self', w').
Proof.
  intros H Ht Hs He. rewrite getSlug_run, H, Ht.
  now rewrite (strip_quoted s Hs He).
Qed.

Lemma field_value_of_a_quoted_body_witness :
  let cfg := Scenario.vault [Scenario.token_reply;
                             Scenario.answer 200 (Scenario.quoted "hello")] in
  fst (fst (_getSlug cfg "username" Scenario.held Scenario.started))
  = Ok "hello".
Proof.
  intro cfg.
  destruct (get cfg "api/v1/secrets/{id}/fields/{slug}"
              [("id", PyInt (secret_id Scenario.held));
               ("slug", PyStr "username")] Scenario.held Scenario.started)
    as [[res s'] w'] eqn:H.
  assert (E : res = Ok (mkResponse 200 (Scenario.quoted "hello")))
    by (vm_compute in H; inversion H; reflexivity).
  subst res.
  rewrite (field_value_of_a_quoted_body cfg "username" Scenario.held
             Scenario.started _ s' w' "hello" H eq_refl eq_refl eq_refl).
  reflexivity.
Defined.

(** ** Failures are not memoised *)

Lemma getSlug_raise_same cfg slug self w e self' w' :
  _getSlug cfg slug self w = (Raise e, self', w') ->
  same_but_token_type self self'.
Proof. intro H. exact (evolves_same _ _ _ _ (getSlug_evolves _ _ _ _ _ _ _ H)). Qed.

(** X9: An access to [ident] or [secret] that raises leaves nothing in the
    instance's memo: no value was there before, none is there after, and
    the other accessor's memo is as it was.  The next access runs the body
    again. *)
Theorem failed_access_is_not_memoised cfg a self w e self' w' :
  read cfg a self w = (Raise e, self', w') ->
  memo_of a self' = None /\
  forall b, memo_of b self' = memo_of b self.
Proof.
  assert (Hsame : same_but_token_type self self' -> memo_of a self = None ->
            memo_of a self' = None /\ forall b, memo_of b self' = memo_of b self).
  { intros [_ _ _ _ _ Ei Es] Hnone.
    assert (forall b, memo_of b self' = memo_of b self)
      by (intros []; simpl; congruence).
    split; [congruence | assumption]. }
  destruct a; simpl.
  - unfold ident. destruct (ident_memo self) as [v | ] eqn:Hm.
    + now rewrite (cached_property_hit _ _ _ _ _ _ Hm).
    + rewrite (cached_property_miss _ _ _ _ _ Hm).
      destruct (name_is_ident self) eqn:Hn.
      * now rewrite (ident_body_by_name _ _ _ Hn).
      * rewrite (ident_body_by_slug _ _ _ Hn).
        destruct (_getSlug cfg (slug_ident self) self w)
          as [[[v | e0] s1] w1] eqn:Hg; [discriminate | ].
        intro H. inversion H; subst. apply Hsame; [ | exact Hm].
        exact (getSlug_raise_same _ _ _ _ _ _ _ Hg).
  - intro H. apply bind_run in H as [(e0 & H & _) | (v & s1 & w1 & _ & H)];
      [ | discriminate].
    revert H. unfold secret. destruct (secret_memo self) as [v | ] eqn:Hm.
    + now rewrite (cached_property_hit _ _ _ _ _ _ Hm).
    + rewrite (cached_property_miss _ _ _ _ _ Hm), secret_body_run.
      destruct (_getSlug cfg (slug_secret self) self w)
        as [[[v | e1] s1] w1] eqn:Hg; [discriminate | ].
      intro H. inversion H; subst. apply Hsame.
      * exact (getSlug_raise_same _ _ _ _ _ _ _ Hg).
      * simpl. now rewrite Hm.
Qed.

Lemma failed_access_is_not_memoised_witness :
  let cfg := Scenario.vault [Scenario.token_reply;
                             Scenario.answer 404 "Not found"] in
  memo_of the_secret
    (snd (fst (read cfg the_secret Scenario.held Scenario.started))) = None.
Proof.
  intro cfg.
  destruct (read cfg the_secret Scenario.held Scenario.started)
    as [[res s'] w'] eqn:H.
  assert (E : res = Raise (HTTPStatusError (mkResponse 404 "Not found")))
    by (vm_compute in H; inversion H; reflexivity).
  subst res.
  exact (proj1 (failed_access_is_not_memoised _ _ _ _ _ _ _ H)).
Defined.

(** ** Which field an accessor asks for *)

Lemma getSlug_requests cfg slug self w res self' w' :
  _getSlug cfg slug self w = (res, self', w') ->
  exists l,
    gets w' = (gets w ++ l)%list /\ (length l <= 2)%nat /\
    Forall (field_request cfg (secret_id self) slug) l.
Proof.
  rewrite getSlug_run.
  destruct (get cfg _ _ self w) as [[res0 s0] w0] eqn:H.
  destruct (get_gets _ _ _ _ _ _ _ _ H) as (l & E & Hl & Fl).
  intro H'. assert (w' = w0) as -> by (destruct res0; inversion H'; reflexivity).
  exists l. auto.
Qed.

Lemma nothing_sent cfg id slug w :
  exists l,
    gets w = (gets w ++ l)%list /\ (length l <= 2)%nat /\
    Forall (field_request cfg id slug) l.
Proof. exists []. rewrite app_nil_r. simpl. auto. Qed.

Lemma ident_requests cfg self w res self' w' :
  ident cfg self w = (res, self', w') ->
  (exists l,
     gets w' = (gets w ++ l)%list /\ (length l <= 2)%nat /\
     Forall (field_request cfg (secret_id self) (slug_ident self)) l) /\
  (ident_memo self <> None \/ name_is_ident self = true -> w' = w) /\
  secret_id self' = secret_id self /\ slug_secret self' = slug_secret self /\
  secret_memo self' = secret_memo self.
Proof.
  unfold ident. destruct (ident_memo self) as [v | ] eqn:Hm.
  - rewrite (cached_property_hit _ _ _ _ _ _ Hm). intro H. inversion H; subst.
    repeat apply conj; auto using nothing_sent.
  - rewrite (cached_property_miss _ _ _ _ _ Hm).
    destruct (name_is_ident self) eqn:Hn.
    + rewrite (ident_body_by_name _ _ _ Hn). intro H. inversion H; subst.
      repeat apply conj; auto using nothing_sent.
    + rewrite (ident_body_by_slug _ _ _ Hn).
      destruct (_getSlug cfg (slug_ident self) self w)
        as [[res0 s0] w0] eqn:Hg.
      destruct (evolves_same _ _ _ _ (getSlug_evolves _ _ _ _ _ _ _ Hg))
        as [E1 _ E3 _ _ _ E7].
      pose proof (getSlug_requests _ _ _ _ _ _ _ Hg) as Hl.
      intro H.
      assert (w' = w0) as -> by (destruct res0; inversion H; reflexivity).
      repeat apply conj; auto.
      * intros [Hc | Hc]; [congruence | discriminate].
      * destruct res0; inversion H; subst; simpl; auto.
      * destruct res0; inversion H; subst; simpl; auto.
      * destruct res0; inversion H; subst; simpl; auto.
Qed.

Lemma secret_requests cfg self w res self' w' :
  secret cfg self w = (res, self', w') ->
  (exists l,
     gets w' = (gets w ++ l)%list /\ (length l <= 2)%nat /\
     Forall (field_request cfg (secret_id self) (slug_secret self)) l) /\
  (secret_memo self <> None -> w' = w).
Proof.
  unfold secret. destruct (secret_memo self) as [v | ] eqn:Hm.
  - rewrite (cached_property_hit _ _ _ _ _ _ Hm). intro H. inversion H; subst.
    split; auto using nothing_sent.
  - rewrite (cached_property_miss _ _ _ _ _ Hm), secret_body_run.
    destruct (_getSlug cfg (slug_secret self) self w)
      as [[res0 s0] w0] eqn:Hg.
    pose proof (getSlug_requests _ _ _ _ _ _ _ Hg) as Hl.
    intro H.
    assert (w' = w0) as -> by (destruct res0; inversion H; reflexivity).
    split; [exact Hl | congruence].
Qed.

(** X10: [secret] asks for the field named by [slug_secret], [ident] for the
    field named by [slug_ident], each of the instance's own secret and with
    two GETs at most; a memoised accessor, and [ident] when the name is the
    identity, leave the process as it is. *)
Theorem accessors_ask_for_their_own_field cfg self w :
  (let '(_, _, w') := secret cfg self w in
   (exists l,
      gets w' = (gets w ++ l)%list /\ (length l <= 2)%nat /\
      Forall (field_request cfg (secret_id self) (slug_secret self)) l) /\
   (secret_memo self <> None -> w' = w)) /\
  (let '(_, _, w') := ident cfg self w in
   (exists l,
      gets w' = (gets w ++ l)%list /\ (length l <= 2)%nat /\
      Forall (field_request cfg (secret_id self) (slug_ident self)) l) /\
   (ident_memo self <> None \/ name_is_ident self = true -> w' = w)).
Proof.
  split.
  - destruct (secret cfg self w) as [[res s'] w'] eqn:H.
    exact (secret_requests _ _ _ _ _ _ H).
  - destruct (ident cfg self w) as [[res s'] w'] eqn:H.
    destruct (ident_requests _ _ _ _ _ _ H) as (Hl & Hw & _). auto.
Qed.

(** ** The constructor *)

Lemma getSecretSummary_requests cfg self w res self' w' :
  _getSecretSummary cfg self w = (res, self', w') ->
  exists l,
    gets w' = (gets w ++ l)%list /\ (length l <= 2)%nat /\
    Forall (summary_request cfg (secret_id self)) l.
Proof.
  unfold _getSecretSummary, bind at 1, get_self. intro H.
  apply bind_run in H as [(e & H & _) | (r & s1 & w1 & H & Hj)].
  - destruct (get_gets _ _ _ _ _ _ _ _ H) as (l & E & Hl & Fl). eauto.
  - destruct (get_gets _ _ _ _ _ _ _ _ H) as (l & E & Hl & Fl).
    rewrite (respects_json same_world same_world_refl _ _ _ _ _ _ _ Hj).
    eauto.
Qed.

Lemma new_SSCreds_requests cfg id ident_slug secret_slug uuid w made w' :
  new_SSCreds cfg id ident_slug secret_slug uuid w = (made, w') ->
  (exists l,
     gets w' = (gets w ++ l)%list /\ (length l <= 2)%nat /\
     Forall (summary_request cfg id) l) /\
  (forall self, made = Ok self ->
     secret_id self = id /\ slug_ident self = ident_slug /\
     slug_secret self = secret_slug /\ _s self = Some httpx_Client /\
     ident_memo self = None /\ secret_memo self = None).
Proof.
  unfold new_SSCreds. rewrite model_post_init_run.
  change (init_uuid (fields id ident_slug secret_slug uuid)) with uuid.
  destruct (_getSecretSummary cfg _ (announced uuid w))
    as [[res s] w0] eqn:Hsum.
  pose proof (getSecretSummary_requests _ _ _ _ _ _ Hsum) as Hl.
  pose proof (getSecretSummary_evolves _ _ _ _ _ _ Hsum) as Hev.
  destruct (evolves_same _ _ _ _ Hev) as [E1 E2 E3 _ _ E6 E7].
  pose proof (evolves_session _ _ _ _ Hev) as E8. simpl in *.
  intro H.
  assert (w' = w0) as ->.
  { destruct res as [sec_summ | e]; [ | inversion H; reflexivity].
    destruct (getitem_str sec_summ "secretTemplateId");
      [ | inversion H; reflexivity].
    destruct (getitem_str sec_summ "name"); inversion H; reflexivity. }
  split; [exact Hl | ].
  intros self ->.
  destruct res as [sec_summ | e]; [ | discriminate].
  destruct (getitem_str sec_summ "secretTemplateId"); [ | discriminate].
  destruct (getitem_str sec_summ "name"); [ | discriminate].
  inversion H; subst. simpl. repeat apply conj; auto.
Qed.

(** X11: The constructor asks for the summary of its secret and for nothing
    else, with two GETs at most; the instance it returns has the three
    arguments as they were given, a session, and nothing memoised. *)
Theorem constructor_asks_for_the_summary_only
    cfg id ident_slug secret_slug uuid w :
  let '(made, w') := new_SSCreds cfg id ident_slug secret_slug uuid w in
  (exists l,
     gets w' = (gets w ++ l)%list /\ (length l <= 2)%nat /\
     Forall (summary_request cfg id) l) /\
  (forall self, made = Ok self ->
     secret_id self = id /\ slug_ident self = ident_slug /\
     slug_secret self = secret_slug /\ _s self = Some httpx_Client /\
     ident_memo self = None /\ secret_memo self = None).
Proof.
  destruct (new_SSCreds cfg id ident_slug secret_slug uuid w)
    as [made w'] eqn:H.
  exact (new_SSCreds_requests _ _ _ _ _ _ _ _ H).
Qed.

(** ** The module globals *)

Lemma post_evolves cfg url data params : respects evolves (post cfg url data params).
Proof.
  pose proof evolves_refl. pose proof evolves_trans.
  pose proof evolves_send. pose proof (evolves_token_type cached).
  unfold post. respects_tac.
Qed.

Lemma access_globals cfg a self w :
  current_access_token (snd (access cfg a self w)) = current_access_token w /\
  current_refresh_token (snd (access cfg a self w)) = current_refresh_token w.
Proof.
  assert (Hslug : forall slug res s' w',
            _getSlug cfg slug self w = (res, s', w') ->
            current_access_token w' = current_access_token w /\
            current_refresh_token w' = current_refresh_token w).
  { intros slug res s' w' H.
    destruct (getSlug_evolves _ _ _ _ _ _ _ H). auto. }
  destruct a; simpl.
  - unfold ident. destruct (ident_memo self) as [v | ] eqn:Hm.
    + rewrite (cached_property_hit _ _ _ _ _ _ Hm). auto.
    + rewrite (cached_property_miss _ _ _ _ _ Hm).
      destruct (name_is_ident self) eqn:Hn.
      * rewrite (ident_body_by_name _ _ _ Hn). auto.
      * rewrite (ident_body_by_slug _ _ _ Hn).
        destruct (_getSlug cfg (slug_ident self) self w)
          as [[[v | e] s'] w'] eqn:Hg; exact (Hslug _ _ _ _ Hg).
  - unfold secret. destruct (secret_memo self) as [v | ] eqn:Hm.
    + rewrite (cached_property_hit _ _ _ _ _ _ Hm). auto.
    + rewrite (cached_property_miss _ _ _ _ _ Hm), secret_body_run.
      destruct (_getSlug cfg (slug_secret self) self w)
        as [[[v | e] s'] w'] eqn:Hg; exact (Hslug _ _ _ _ Hg).
  - destruct (otp cfg self w) as [[r s'] w'] eqn:Ho.
    destruct (otp_evolves _ _ _ _ _ _ Ho). auto.
Qed.

(** X12: Nothing a caller can do with the class writes the two module-level
    token variables: they are after the constructor, after an access to
    [ident], [secret] or [otp], and after [post] what they were before. *)
Theorem module_globals_are_never_written cfg :
  (forall id ident_slug secret_slug uuid w,
     let w' := snd (new_SSCreds cfg id ident_slug secret_slug uuid w) in
     current_access_token w' = current_access_token w /\
     current_refresh_token w' = current_refresh_token w) /\
  (forall a self w,
     let w' := snd (access cfg a self w) in
     current_access_token w' = current_access_token w /\
     current_refresh_token w' = current_refresh_token w) /\
  (forall url data params self w,
     let w' := snd (post cfg url data params self w) in
     current_access_token w' = current_access_token w /\
     current_refresh_token w' = current_refresh_token w).
Proof.
  repeat apply conj.
  - intros id ident_slug secret_slug uuid w. cbv zeta.
    unfold new_SSCreds. rewrite model_post_init_run.
    destruct (_getSecretSummary cfg _ _) as [[res s] w0] eqn:Hsum.
    destruct (getSecretSummary_evolves _ _ _ _ _ _ Hsum) as [_ Ea Er _].
    simpl in Ea, Er.
    destruct res as [sec_summ | e]; [ | simpl; auto].
    destruct (getitem_str sec_summ "secretTemplateId"); [ | simpl; auto].
    destruct (getitem_str sec_summ "name"); simpl; auto.
  - intros a self w. exact (access_globals cfg a self w).
  - intros url data params self w. cbv zeta.
    destruct (post cfg url data params self w) as [[res s'] w'] eqn:H.
    destruct (post_evolves _ _ _ _ _ _ _ _ _ H). simpl. auto.
Qed.

(** ** The reply to the password grant *)

(** X13: The reply to the password grant must be an object with all four of
    [access_token], [token_type], [expires_in] and [refresh_token]: when
    one of them is missing the token resolution raises a [KeyError] for a
    missing key, also when the access token is there. *)
Theorem grant_reply_needs_all_four_keys cfg self w c base r d k :
  _s self = Some c ->
  SSAPP_BASEURL cfg = Some base ->
  remote cfg (sent w)
    (mkRequest POST (base ++ "oauth2/token") [] []
       [("grant_type", PyStr "password");
        ("username", of_env (SSAPP_USERNAME cfg));
        ("password", of_env (SSAPP_PASSWORD cfg))]) = Reply r ->
  is_success r = true ->
  parse_json cfg (text r) = Some (PyDict d) ->
  In k ["access_token"; "token_type"; "expires_in"; "refresh_token"] ->
  dict_get d k = None ->
  exists k' self' w',
    _getServerAccessToken cfg self w = (Raise (KeyError k'), self', w') /\
    In k' ["access_token"; "token_type"; "expires_in"; "refresh_token"] /\
    dict_get d k' = None.
Proof.
  intros Hc Hb Hr Hok Hp Hin Hk.
  unfold _getServerAccessToken, session, env_concat, send, raise_for_status,
    json, lift, bind, get_self, ret, raise.
  rewrite Hc, Hb. cbn [fst snd]. rewrite Hr, Hok, Hp. cbn [getitem_str].
  destruct (dict_get d "access_token") eqn:E1;
    [ | exists "access_token"; do 2 eexists;
        split; [reflexivity | split; [simpl; tauto | exact E1]]].
  destruct (dict_get d "token_type") eqn:E2;
    [ | exists "token_type"; do 2 eexists;
        split; [reflexivity | split; [simpl; tauto | exact E2]]].
  destruct (dict_get d "expires_in") eqn:E3;
    [ | exists "expires_in"; do 2 eexists;
        split; [reflexivity | split; [simpl; tauto | exact E3]]].
  destruct (dict_get d "refresh_token") eqn:E4;
    [ | exists "refresh_token"; do 2 eexists;
        split; [reflexivity | split; [simpl; tauto | exact E4]]].
  exfalso. simpl in Hin.
  destruct Hin as [<- | [<- | [<- | [<- | []]]]]; congruence.
Qed.

Lemma grant_reply_needs_all_four_keys_witness :
  let body := ("{" ++ Scenario.quoted "access_token" ++ ":"
                   ++ Scenario.quoted "T1" ++ "}")%string in
  let cfg := mkSetting (Some "svc-user") (Some "svc-pass") (Some Scenario.base)
               (Scenario.scripted [Scenario.answer 200 body])
               (fun s => if String.eqb s body
                         then Some (PyDict [("access_token", PyStr "T1")])
                         else None) in
  exists k' self' w',
    _getServerAccessToken cfg Scenario.held Scenario.started
    = (Raise (KeyError k'), self', w') /\
    In k' ["access_token"; "token_type"; "expires_in"; "refresh_token"] /\
    dict_get [("access_token", PyStr "T1")] k' = None.
Proof.
  intros body cfg.
  refine (grant_reply_needs_all_four_keys cfg Scenario.held Scenario.started
            httpx_Client Scenario.base (mkResponse 200 body)
            [("access_token", PyStr "T1")] "refresh_token" _ _ _ _ _ _ _).
  - reflexivity.
  - reflexivity.
  - reflexivity.
  - reflexivity.
  - vm_compute. reflexivity.
  - simpl. auto.
  - reflexivity.
Defined.

(** ** [main.py] *)



(** The run of [main.py] on the line "1234", with [str] and [int] given on
    the values that occur. *)
Example main_prints_the_report :
  let cfg := Scenario.vault [Scenario.token_reply;
                             Scenario.answer 200 Scenario.summary_body;
                             Scenario.token_reply;
                             Scenario.answer 200 (Scenario.quoted "svc-acct");
                             Scenario.token_reply;
                             Scenario.answer 200 (Scenario.quoted "P@ssw0rd")] in
  let str_of v := match v with
                  | PyStr s => s
                  | PyInt 1234 => "1234"
                  | _ => "?"
                  end in
  let int_of s := if String.eqb s "1234" then Some 1234 else None in
  let '(ended, w') := main cfg str_of int_of "1234" "uuid-1" Scenario.started in
  ended = None /\
  stdout w' = ["Enter secret_id to retrieve: ";
               "Initializing Credential Request: uuid-1";
               "id: 1234 ident: svc-acct secret: P@ssw0rd"] /\
  map req_method (sent w') = [POST; GET; POST; GET; POST; GET].
Proof. vm_compute. repeat split. Qed.

(** ** The one-time password is asked for every time *)



(** ** One password grant for every GET *)

Lemma getServerAccessToken_ok_sent cfg self w v self' w' :
  _getServerAccessToken cfg self w = (Ok v, self', w') ->
  exists p, grant_request cfg p /\ sent w' = (sent w ++ [p])%list.
Proof.
  intro H. pose proof H as H0.
  destruct (getServerAccessToken_sent _ _ _ _ _ _ H) as [E | Hp];
    [ | exact Hp].
  exfalso. unfold _getServerAccessToken in H0. cbv zeta in H0.
  apply bind_run in H0 as [(e & _ & H0) | (c & s1 & w1 & H1 & H0)];
    [discriminate | ].
  pose proof (respects_session same_world same_world_refl same_world_trans
                _ _ _ _ _ _ H1) as E1. unfold same_world in E1. subst w1.
  apply bind_run in H0 as [(e & _ & H0) | (u & s2 & w2 & H2 & H0)];
    [discriminate | ].
  pose proof (respects_env_concat same_world same_world_refl
                _ _ _ _ _ _ _ H2) as E2. unfold same_world in E2. subst w2.
  apply bind_run in H0 as [(e & _ & H0) | (resp & s3 & w3 & H3 & H0)];
    [discriminate | ].
  assert (E3 : sent w3 = (sent w ++ [mkRequest POST u [] []
             [("grant_type", PyStr "password");
              ("username", of_env (fst (SSAPP_USERNAME cfg, SSAPP_PASSWORD cfg)));
              ("password", of_env (snd (SSAPP_USERNAME cfg, SSAPP_PASSWORD cfg)))]])%list)
    by (unfold send in H3; destruct (remote cfg _ _); inversion H3; reflexivity).
  assert (Hr : respects evolves
            (raise_for_status resp ;;;
             resp0 <- json cfg resp ;;
             oauth_access_token <- lift (getitem_str resp0 "access_token") ;;
             oauth_token_type <- lift (getitem_str resp0 "token_type") ;;
             oauth_expires_in <- lift (getitem_str resp0 "expires_in") ;;
             oauth_refresh_token <- lift (getitem_str resp0 "refresh_token") ;;
             ret oauth_access_token)).
  { pose proof evolves_refl. pose proof evolves_trans. respects_tac. }
  destruct (Hr _ _ _ _ _ H0) as [_ _ _ [l El]].
  rewrite El, E3 in E. apply (f_equal (@length _)) in E.
  rewrite !length_app in E. simpl in E. lia.
Qed.

Lemma session_get_without_token cfg url params self w res self' w' :
  current_access_token w = None ->
  session_get cfg url params self w = (res, self', w') ->
  current_access_token w' = None /\
  exists l, sent w' = (sent w ++ l)%list /\ grant_then_get cfg url params l.
Proof.
  intros Ht H. split.
  { destruct (session_get_evolves _ _ _ _ _ _ _ _ H) as [_ E _ _]. congruence. }
  unfold session_get in H.
  apply bind_run in H as [(e & H & _) | (c & s1 & w1 & H1 & H)].
  { rewrite (respects_session same_world same_world_refl same_world_trans
               _ _ _ _ _ _ H).
    exists []. rewrite app_nil_r. split; [reflexivity | left; reflexivity]. }
  pose proof (respects_session same_world same_world_refl same_world_trans
                _ _ _ _ _ _ H1) as E1. unfold same_world in E1. subst w1.
  apply bind_run in H as [(e & H & _) | (h & s2 & w2 & H2 & H)].
  { destruct (getHeaders_sent _ _ _ _ _ _ H) as ([E | (p & Hp & E)] & _).
    - exists []. rewrite app_nil_r. split; [exact E | left; reflexivity].
    - exists [p]. split; [exact E | right; left; eauto]. }
  assert (Hp : exists p, grant_request cfg p /\ sent w2 = (sent w ++ [p])%list).
  { revert H2. unfold _getHeaders, _accessToken, bind at 1, bind at 1,
      _cachedAccessToken. rewrite Ht.
    destruct (_getServerAccessToken cfg s1 w) as [[[v | e] s3] w3] eqn:Hg;
      [ | discriminate].
    intro H2. assert (w2 = w3) as -> by (destruct v; inversion H2; reflexivity).
    exact (getServerAccessToken_ok_sent _ _ _ _ _ _ Hg). }
  destruct Hp as (p & Hp & E2).
  destruct (getHeaders_sent _ _ _ _ _ _ H2) as (_ & Hb & _).
  destruct (Hb h eq_refl) as [t ->].
  unfold bind, env_concat in H.
  destruct (SSAPP_BASEURL cfg) as [base | ] eqn:Hbase.
  - unfold ret, send in H.
    exists [p; mkRequest GET (base ++ url) (bearer t) params []]. split.
    + assert (sent w' = (sent w2 ++ [mkRequest GET (base ++ url) (bearer t) params []])%list)
        as -> by (destruct (remote cfg _ _); inversion H; reflexivity).
      rewrite E2, <- app_assoc. reflexivity.
    + right; right. exists p. eexists. repeat apply conj; eauto.
      exists base, t. auto.
  - inversion H; subst. exists [p]. split; [exact E2 | right; left; eauto].
Qed.

(** X4: While the module global holds no token, and it never comes to hold
    one, every GET of [get] goes out right after a password grant of its
    own: [get] sends nothing, or a grant, or a grant and the GET, and
    then, after an expired-token marker, the same once more. *)
Theorem get_without_cached_token cfg url params self w res self' w' :
  current_access_token w = None ->
  get cfg url params self w = (res, self', w') ->
  current_access_token w' = None /\
  exists l1 l2,
    sent w' = (sent w ++ l1 ++ l2)%list /\
    grant_then_get cfg url params l1 /\ grant_then_get cfg url params l2.
Proof.
  intros Ht H. split.
  { destruct (get_evolves _ _ _ _ _ _ _ _ H) as [_ E _ _]. congruence. }
  apply (get_two_sends cfg url params
           (fun w => current_access_token w = None)
           (grant_then_get cfg url params))
    with (self := self) (res := res) (self' := self'); auto.
  - left. reflexivity.
  - intros s0 w0 r0 s1 w1 H0 H1.
    exact (session_get_without_token _ _ _ _ _ _ _ _ H0 H1).
Qed.

Lemma get_without_cached_token_witness :
  let cfg := Scenario.vault [Scenario.token_reply;
                             Scenario.answer 200 Scenario.expired_body;
                             Scenario.token_reply;
                             Scenario.answer 200 (Scenario.quoted "svc-acct")] in
  let '(_, _, w') :=
    get cfg Scenario.field_url [] Scenario.held Scenario.started in
  current_access_token w' = None /\
  exists l1 l2,
    sent w' = (sent Scenario.started ++ l1 ++ l2)%list /\
    grant_then_get cfg Scenario.field_url [] l1 /\
    grant_then_get cfg Scenario.field_url [] l2.
Proof.
  intro cfg.
  destruct (get cfg Scenario.field_url [] Scenario.held Scenario.started)
    as [[res self'] w'] eqn:H.
  exact (get_without_cached_token cfg Scenario.field_url [] Scenario.held
           Scenario.started res self' w' eq_refl H).
Defined.
